(** * Neutron spectrum unfolding: normalizeResponse, runMLEM and runMAP

    A shallow embedding of the reconstruction core of
    [unfolding/source/physics_calculations.cpp].

    - A C++ [double] is a binary64 number: Rocq's primitive [float].
    - A [std::vector<double>] is a [list float]; [operator[]] outside the
      vector is undefined behaviour and is reported as [OutOfRange].
    - An [int] is a [Z]. The loop counters run from 0 or 1 up to an [int]
      bound, and [num_bins-1] and [num_bins-2] leave the range of [int]
      only for a [num_bins] whose accesses [spectrum[num_bins-1]] and
      [spectrum[num_bins-2]] are out of range in any case.
    - The vectors passed by reference live in a [store]; every function
      returns the store it leaves behind. *)

From Stdlib Require Import ZArith List Bool Lia Floats.
From Stdlib Require Uint63.
Import ListNotations.

Local Open Scope Z_scope.

(** ** Outcomes *)

Inductive result (A : Type) : Type :=
| Ok (a : A)
| OutOfRange (index : Z) (size : Z).

Arguments Ok {A} a.
Arguments OutOfRange {A} index size.

Definition bind {A B : Type} (r : result A) (k : A -> result B) : result B :=
  match r with
  | Ok a => k a
  | OutOfRange i n => OutOfRange i n
  end.

Declare Scope result_scope.
Delimit Scope result_scope with result.
Notation "x <- r ;; k" := (bind r (fun x => k))
  (at level 61, r at next level, right associativity) : result_scope.
Notation "' p <- r ;; k" := (bind r (fun p => k))
  (at level 61, p pattern, r at next level, right associativity) : result_scope.
Local Open Scope result_scope.

(** ** std::vector *)

Definition vec := list float.
Definition matrix := list (list float).

Definition size {A : Type} (v : list A) : Z := Z.of_nat (length v).

(** [v[i]] as an rvalue. The index is converted to the unsigned
    [size_type], so a negative [int] is out of range too. *)
Definition at_ {A : Type} (v : list A) (i : Z) : result A :=
  if i <? 0 then OutOfRange i (size v)
  else match nth_error v (Z.to_nat i) with
       | Some x => Ok x
       | None => OutOfRange i (size v)
       end.

Fixpoint replace_nth {A : Type} (n : nat) (x : A) (v : list A) : list A :=
  match v, n with
  | [], _ => []
  | _ :: t, O => x :: t
  | h :: t, S n' => h :: replace_nth n' x t
  end.

(** [v[i] = x]. *)
Definition assign {A : Type} (v : list A) (i : Z) (x : A) : result (list A) :=
  if (0 <=? i) && (i <? size v) then Ok (replace_nth (Z.to_nat i) x v)
  else OutOfRange i (size v).

Definition push_back {A : Type} (v : list A) (x : A) : list A := v ++ [x].

Definition clear {A : Type} (v : list A) : list A := [].

(** ** Counted loops

    [for_ lo hi body s] is [for (int i = lo; i < hi; i++) body], started in
    state [s]: the body runs for [i = lo, lo+1, ..., hi-1], that is
    [max 0 (hi - lo)] times, and not at all when [hi <= lo]. *)

Fixpoint for_loop {St : Type} (n : nat) (i : Z) (body : Z -> St -> result St) (s : St)
  : result St :=
  match n with
  | O => Ok s
  | S n' => s' <- body i s ;; for_loop n' (i + 1) body s'
  end.

Definition for_ {St : Type} (lo hi : Z) (body : Z -> St -> result St) (s : St)
  : result St :=
  for_loop (Z.to_nat (hi - lo)) lo body s.

(** ** normalizeResponse (lines 25-43)

    [system_response] is received by reference; the matrix the call leaves
    behind is returned next to the new vector. *)

Definition normalizeResponse (num_bins num_measurements : Z) (system_response : matrix)
  : result (vec * matrix) :=
  normalized_vector <-
    for_ 0 num_bins (fun i_bin normalized_vector =>
      temp_value <-
        for_ 0 num_measurements (fun i_meas temp_value =>
          row <- at_ system_response i_meas ;;
          r <- at_ row i_bin ;;
          Ok (temp_value + r)%float) 0%float ;;
      Ok (push_back normalized_vector temp_value)) [] ;;
  Ok (normalized_vector, system_response).

(** ** The vectors runMLEM and runMAP receive by reference

    [energy_correction] is a parameter of runMAP only; runMLEM neither
    reads nor writes it. The references are taken to denote distinct
    objects. *)

Record store : Type := mkStore {
  measurements : vec;
  spectrum : vec;
  nns_response : matrix;
  normalized_response : vec;
  mlem_ratio : vec;
  energy_correction : vec
}.

Definition set_spectrum (st : store) (v : vec) : store :=
  mkStore (measurements st) v (nns_response st) (normalized_response st)
          (mlem_ratio st) (energy_correction st).

Definition set_mlem_ratio (st : store) (v : vec) : store :=
  mkStore (measurements st) (spectrum st) (nns_response st) (normalized_response st)
          v (energy_correction st).

Definition set_energy_correction (st : store) (v : vec) : store :=
  mkStore (measurements st) (spectrum st) (nns_response st) (normalized_response st)
          (mlem_ratio st) v.

(** ** The phases of one pass of the loops *)

(** Lines 260-268 (runMLEM) and 335-343 (runMAP): the local vector
    [mlem_estimate]. *)
Definition compute_estimate (num_measurements num_bins : Z) (st : store) : result vec :=
  for_ 0 num_measurements (fun i_meas mlem_estimate =>
    temp_value <-
      for_ 0 num_bins (fun i_bin temp_value =>
        row <- at_ (nns_response st) i_meas ;;
        r <- at_ row i_bin ;;
        s <- at_ (spectrum st) i_bin ;;
        Ok (temp_value + r * s)%float) 0%float ;;
    Ok (push_back mlem_estimate temp_value)) [].

(** Lines 271-274 and 346-349. *)
Definition compute_ratio (num_measurements : Z) (mlem_estimate : vec) (st : store)
  : result store :=
  for_ 0 num_measurements (fun i_meas st =>
    m <- at_ (measurements st) i_meas ;;
    e <- at_ mlem_estimate i_meas ;;
    Ok (set_mlem_ratio st (push_back (mlem_ratio st) (m / e)%float))) st.

(** Lines 277-289 and 352-364: the local vector [mlem_correction]. *)
Definition compute_correction (num_measurements num_bins : Z) (st : store) : result vec :=
  for_ 0 num_bins (fun i_bin mlem_correction =>
    temp_value <-
      for_ 0 num_measurements (fun i_meas temp_value =>
        row <- at_ (nns_response st) i_meas ;;
        r <- at_ row i_bin ;;
        q <- at_ (mlem_ratio st) i_meas ;;
        Ok (temp_value + r * q)%float) 0%float ;;
    Ok (push_back mlem_correction temp_value)) [].

(** Lines 292-295 (runMLEM). *)
Definition apply_correction (num_bins : Z) (mlem_correction : vec) (st : store)
  : result store :=
  for_ 0 num_bins (fun i_bin st =>
    s <- at_ (spectrum st) i_bin ;;
    c <- at_ mlem_correction i_bin ;;
    n <- at_ (normalized_response st) i_bin ;;
    v <- assign (spectrum st) i_bin (s * c / n)%float ;;
    Ok (set_spectrum st v)) st.

(** Lines 299-305 and 387-393: the value of [continue_mlem] after the scan,
    which stops at the first ratio outside the band. [x >= y] on doubles
    is [y <= x]. *)
Definition outside_band (error r : float) : bool :=
  ((1 + error <=? r) || (r <=? 1 - error))%float.

Fixpoint scan_ratios (n : nat) (i_meas : Z) (error : float) (st : store) : result bool :=
  match n with
  | O => Ok false
  | S n' =>
      r <- at_ (mlem_ratio st) i_meas ;;
      if outside_band error r then Ok true
      else scan_ratios n' (i_meas + 1) error st
  end.

Definition continue_mlem (error : float) (num_measurements : Z) (st : store) : result bool :=
  scan_ratios (Z.to_nat num_measurements) 0 error st.

(** ** runMLEM (lines 248-312) *)

(** The body of the loop, lines 252-305; the boolean is [continue_mlem]. *)
Definition mlem_iteration (error : float) (num_measurements num_bins : Z) (st : store)
  : result (bool * store) :=
  let st := set_mlem_ratio st (clear (mlem_ratio st)) in
  mlem_estimate <- compute_estimate num_measurements num_bins st ;;
  st <- compute_ratio num_measurements mlem_estimate st ;;
  mlem_correction <- compute_correction num_measurements num_bins st ;;
  st <- apply_correction num_bins mlem_correction st ;;
  c <- continue_mlem error num_measurements st ;;
  Ok (c, st).

(** [for (mlem_index = ...; mlem_index < cutoff; mlem_index++)] with
    [fuel = cutoff - mlem_index] passes left; [break] leaves [mlem_index]
    as it is. *)
Fixpoint mlem_loop (fuel : nat) (mlem_index : Z) (error : float)
    (num_measurements num_bins : Z) (st : store) : result (Z * store) :=
  match fuel with
  | O => Ok (mlem_index, st)
  | S fuel' =>
      '(c, st') <- mlem_iteration error num_measurements num_bins st ;;
      if c then mlem_loop fuel' (mlem_index + 1) error num_measurements num_bins st'
      else Ok (mlem_index, st')
  end.

Definition runMLEM (cutoff : Z) (error : float) (num_measurements num_bins : Z)
    (st : store) : result (Z * store) :=
  mlem_loop (Z.to_nat cutoff) 0 error num_measurements num_bins st.

(** ** runMAP (lines 323-400) *)

(** [pow(x, 2)]: the square, rounded to binary64 (infinite on overflow). *)
Definition pow_2 (x : float) : float := (x * x)%float.

(** Lines 368-377. *)
Definition compute_energy_correction (beta : float) (num_bins : Z) (st : store)
  : result store :=
  let st := set_energy_correction st (clear (energy_correction st)) in
  s0 <- at_ (spectrum st) 0 ;;
  s1 <- at_ (spectrum st) 1 ;;
  let st := set_energy_correction st
              (push_back (energy_correction st) (beta * pow_2 (s0 - s1))%float) in
  st <- for_ 1 (num_bins - 1) (fun i_bin st =>
          s <- at_ (spectrum st) i_bin ;;
          p <- at_ (spectrum st) (i_bin - 1) ;;
          n <- at_ (spectrum st) (i_bin + 1) ;;
          let temp_value := (beta * (pow_2 (s - p) + pow_2 (s - n)))%float in
          Ok (set_energy_correction st (push_back (energy_correction st) temp_value))) st ;;
  l <- at_ (spectrum st) (num_bins - 1) ;;
  k <- at_ (spectrum st) (num_bins - 2) ;;
  Ok (set_energy_correction st
        (push_back (energy_correction st) (beta * pow_2 (l - k))%float)).

(** Lines 380-383. *)
Definition apply_map_correction (num_bins : Z) (mlem_correction : vec) (st : store)
  : result store :=
  for_ 0 num_bins (fun i_bin st =>
    s <- at_ (spectrum st) i_bin ;;
    c <- at_ mlem_correction i_bin ;;
    n <- at_ (normalized_response st) i_bin ;;
    e <- at_ (energy_correction st) i_bin ;;
    v <- assign (spectrum st) i_bin (s * c / (n + e))%float ;;
    Ok (set_spectrum st v)) st.

(** The body of the loop, lines 327-393. *)
Definition map_iteration (beta error : float) (num_measurements num_bins : Z) (st : store)
  : result (bool * store) :=
  let st := set_mlem_ratio st (clear (mlem_ratio st)) in
  mlem_estimate <- compute_estimate num_measurements num_bins st ;;
  st <- compute_ratio num_measurements mlem_estimate st ;;
  mlem_correction <- compute_correction num_measurements num_bins st ;;
  st <- compute_energy_correction beta num_bins st ;;
  st <- apply_map_correction num_bins mlem_correction st ;;
  c <- continue_mlem error num_measurements st ;;
  Ok (c, st).

Fixpoint map_loop (fuel : nat) (mlem_index : Z) (beta error : float)
    (num_measurements num_bins : Z) (st : store) : result (Z * store) :=
  match fuel with
  | O => Ok (mlem_index, st)
  | S fuel' =>
      '(c, st') <- map_iteration beta error num_measurements num_bins st ;;
      if c then map_loop fuel' (mlem_index + 1) beta error num_measurements num_bins st'
      else Ok (mlem_index, st')
  end.

Definition runMAP (beta : float) (cutoff : Z) (error : float)
    (num_measurements num_bins : Z) (st : store) : result (Z * store) :=
  map_loop (Z.to_nat cutoff) 0 beta error num_measurements num_bins st.

(** ** Reading the vectors by position

    The total counterparts of [at_], used to state what the loops compute. *)

Definition entry (v : vec) (i : Z) : float := nth (Z.to_nat i) v nan.

Definition cell (R : matrix) (m b : Z) : float := entry (nth (Z.to_nat m) R []) b.

(** [sigma n f] is [f 0 + f 1 + ... + f (n-1)] accumulated from [0.0] in
    increasing index order, the order of the source's [temp_value += ...]. *)
Definition sigma (n : Z) (f : Z -> float) : float :=
  fold_left (fun acc k => (acc + f (Z.of_nat k))%float) (seq 0 (Z.to_nat n)) 0%float.

(** [tabulate n f] is the vector [f 0; f 1; ...; f (n-1)]. *)
Definition tabulate (n : Z) (f : Z -> float) : vec :=
  map (fun k => f (Z.of_nat k)) (seq 0 (Z.to_nat n)).

(** The dimensions agree: [num_measurements] measurements and rows,
    [num_bins] columns, spectrum and normalization entries. *)
Record well_formed (num_measurements num_bins : Z) (st : store) : Prop := mkWf {
  wf_measurements : size (measurements st) = num_measurements;
  wf_spectrum : size (spectrum st) = num_bins;
  wf_rows : size (nns_response st) = num_measurements;
  wf_cols : Forall (fun row => size row = num_bins) (nns_response st);
  wf_normalized : size (normalized_response st) = num_bins
}.

(** ** What the phases compute when the dimensions agree *)

Definition estimated (num_bins : Z) (st : store) (m : Z) : float :=
  sigma num_bins (fun b => (cell (nns_response st) m b * entry (spectrum st) b)%float).

Definition ratio (num_bins : Z) (st : store) (m : Z) : float :=
  (entry (measurements st) m / estimated num_bins st m)%float.

Definition correction (num_measurements num_bins : Z) (st : store) (b : Z) : float :=
  sigma num_measurements (fun m => (cell (nns_response st) m b * ratio num_bins st m)%float).

Definition mlem_update (num_measurements num_bins : Z) (st : store) (b : Z) : float :=
  (entry (spectrum st) b * correction num_measurements num_bins st b
   / entry (normalized_response st) b)%float.

(** The store one pass of the runMLEM loop leaves behind. *)
Definition mlem_next (num_measurements num_bins : Z) (st : store) : store :=
  mkStore (measurements st)
          (tabulate num_bins (mlem_update num_measurements num_bins st))
          (nns_response st)
          (normalized_response st)
          (tabulate num_measurements (ratio num_bins st))
          (energy_correction st).

(** The value of [continue_mlem] at the end of a pass started in [st]. *)
Definition must_continue (error : float) (num_measurements num_bins : Z) (st : store) : bool :=
  existsb (outside_band error) (tabulate num_measurements (ratio num_bins st)).

(** The squared differences of bin [b] to its neighbours, from the spectrum
    of [st]: one neighbour for the first and the last bin, two for the
    others. *)
Definition roughness (num_bins : Z) (st : store) (b : Z) : float :=
  let s := spectrum st in
  if b =? 0 then pow_2 (entry s 0 - entry s 1)
  else if b =? num_bins - 1 then pow_2 (entry s b - entry s (b - 1))
  else (pow_2 (entry s b - entry s (b - 1)) + pow_2 (entry s b - entry s (b + 1)))%float.

(** The energy-correction term of bin [b]. *)
Definition energy_term (beta : float) (num_bins : Z) (st : store) (b : Z) : float :=
  (beta * roughness num_bins st b)%float.

Definition map_update (beta : float) (num_measurements num_bins : Z) (st : store) (b : Z)
  : float :=
  (entry (spectrum st) b * correction num_measurements num_bins st b
   / (entry (normalized_response st) b + energy_term beta num_bins st b))%float.

(** The store one pass of the runMAP loop leaves behind. *)
Definition map_next (beta : float) (num_measurements num_bins : Z) (st : store) : store :=
  mkStore (measurements st)
          (tabulate num_bins (map_update beta num_measurements num_bins st))
          (nns_response st)
          (normalized_response st)
          (tabulate num_measurements (ratio num_bins st))
          (tabulate num_bins (energy_term beta num_bins st)).

(** ** The passes of a run *)

(** The stores in which the passes of the runMLEM loop start, in order,
    when [fuel] passes are allowed. *)
Fixpoint mlem_trace (fuel : nat) (error : float) (num_measurements num_bins : Z)
    (st : store) : list store :=
  match fuel with
  | O => []
  | S fuel' =>
      st :: match mlem_iteration error num_measurements num_bins st with
            | Ok (true, st') => mlem_trace fuel' error num_measurements num_bins st'
            | _ => []
            end
  end.

(** The same for the runMAP loop. *)
Fixpoint map_trace (fuel : nat) (beta error : float) (num_measurements num_bins : Z)
    (st : store) : list store :=
  match fuel with
  | O => []
  | S fuel' =>
      st :: match map_iteration beta error num_measurements num_bins st with
            | Ok (true, st') => map_trace fuel' beta error num_measurements num_bins st'
            | _ => []
            end
  end.

(** The loop of runMLEM and runMAP without the range checks: [next] is the
    store a pass leaves behind and [continue] the value of [continue_mlem]
    at its end. *)
Fixpoint run_passes (next : store -> store) (continue : store -> bool)
    (fuel : nat) (mlem_index : Z) (st : store) : Z * store :=
  match fuel with
  | O => (mlem_index, st)
  | S fuel' =>
      if continue st then run_passes next continue fuel' (mlem_index + 1) (next st)
      else (mlem_index, next st)
  end.

(** The stores in which the passes of [run_passes] start. *)
Fixpoint visited (next : store -> store) (continue : store -> bool)
    (fuel : nat) (st : store) : list store :=
  match fuel with
  | O => []
  | S fuel' => st :: if continue st then visited next continue fuel' (next st) else []
  end.

Definition mlem_run (fuel : nat) (mlem_index : Z) (error : float)
    (num_measurements num_bins : Z) (st : store) : Z * store :=
  run_passes (mlem_next num_measurements num_bins)
             (must_continue error num_measurements num_bins) fuel mlem_index st.

Definition map_run (fuel : nat) (mlem_index : Z) (beta error : float)
    (num_measurements num_bins : Z) (st : store) : Z * store :=
  run_passes (map_next beta num_measurements num_bins)
             (must_continue error num_measurements num_bins) fuel mlem_index st.

(** ** The passes of the loops, one after the other *)

(** The vectors after [n] passes of a loop body, whatever the value of
    [continue_mlem] the passes end with. *)
Fixpoint passes (body : store -> result (bool * store)) (n : nat) (st : store)
  : result store :=
  match n with
  | O => Ok st
  | S n' => '(_, st') <- body st ;; passes body n' st'
  end.

(** Pass [j], counted from 0, is the first that ends with [continue_mlem]
    false, and it leaves [s']: the passes before it all end with
    [continue_mlem] true. *)
Definition first_converging_pass (body : store -> result (bool * store)) (j : Z)
    (st s' : store) : Prop :=
  (forall i, 0 <= i < j ->
     exists si si', passes body (Z.to_nat i) st = Ok si /\ body si = Ok (true, si')) /\
  exists s, passes body (Z.to_nat j) st = Ok s /\ body s = Ok (false, s').

(** ** Properties of stores and of ratios *)

Definition untouched (st st' : store) : Prop :=
  measurements st' = measurements st /\
  nns_response st' = nns_response st /\
  normalized_response st' = normalized_response st.

(** [1-error < r < 1+error], both comparisons strict. *)
Definition in_band (error r : float) : bool :=
  ((1 - error <? r) && (r <? 1 + error))%float.

(** [0 <= c] and [c] finite. *)
Definition finite_nonneg (c : float) : bool := ((0 <=? c) && (c <? infinity))%float.

(** Adding the energy-correction term of any bin, computed with beta = 0,
    to its normalization entry gives the normalization entry back. *)
Definition energy_neutral (num_bins : Z) (st : store) : Prop :=
  forall b, 0 <= b < num_bins ->
    (entry (normalized_response st) b + energy_term 0 num_bins st b)%float
    = entry (normalized_response st) b.

(** The two stores hold the same vectors, [energy_correction] apart. *)
Definition agree (s1 s2 : store) : Prop :=
  measurements s1 = measurements s2 /\
  spectrum s1 = spectrum s2 /\
  nns_response s1 = nns_response s2 /\
  normalized_response s1 = normalized_response s2 /\
  mlem_ratio s1 = mlem_ratio s2.

(** ** Sample inputs *)

(** One measurement and one bin: response [[1.0]], measurement [5.0],
    initial spectrum [1.0], normalization [1.0]. *)
Definition single_bin : store :=
  mkStore [5%float] [1%float] [[1%float]] [1%float] [] [].

(** Two measurements and three bins; the normalization is the vector of
    column sums. *)
Definition three_bins : store :=
  mkStore [18; 8]%float [1; 2; 4]%float [[1; 2; 1]; [2; 1; 3]]%float [3; 3; 4]%float
          [7%float] [8; 8]%float.

(** One measurement whose response row is zero and whose measured value is
    zero: estimated[0] is 0 and ratio[0] is 0/0. *)
Definition dead_detector : store :=
  mkStore [0%float] [1%float] [[0%float]] [0%float] [] [].

(** A response matrix whose first column is zero, with its column sums as
    normalization, and a spectrum whose first entry is zero. *)
Definition zero_column : store :=
  mkStore [1%float] [0; 1]%float [[0; 1]]%float [0; 1]%float [] [].

(** One measurement and two bins, the first entry of the spectrum zero. *)
Definition zero_entry : store :=
  mkStore [4%float] [0; 1]%float [[1; 1]]%float [1; 1]%float [] [].

(** Two bins whose squared difference overflows binary64. *)
Definition steep : store :=
  mkStore [1%float] [0x1p+600; 1]%float [[1; 1]]%float [1; 1]%float [] [].

(** A normalization entry equal to -0.0. *)
Definition negative_zero_normalization : store :=
  mkStore [1%float] [1; 1]%float [[1; 1]]%float [neg_zero; 1%float] [] [].

(** Every ratio exactly 1.0: the loop ends in its first pass and 0 is
    returned. *)
Definition exact_fit : store :=
  mkStore [3%float] [1; 2]%float [[1; 1]]%float [1; 1]%float [] [].

(** A ratio exactly equal to 1+error in the first pass. *)
Definition on_the_boundary : store :=
  mkStore [1.0625%float] [1%float] [[1%float]] [1%float] [] [].

(** Two measurements of the same single bin that disagree: the ratios
    settle at 0.4 and 1.6. *)
Definition inconsistent : store :=
  mkStore [1; 4]%float [1%float] [[1]; [1]]%float [2%float] [] [].

(** * The aggregate statistics (lines 62-238)

    The vectors these functions receive are only read, except
    [rms_differences], to which calculateRMSD_vector appends. The decimal
    literals of the source are the binary64 numbers nearest to them. *)

#[local] Set Warnings "-inexact-float".

(** An [int] converted to [double]; the conversion is exact. *)
Definition double_of_int (n : Z) : float :=
  if n <? 0 then (- of_uint63 (Uint63.of_Z (- n)))%float
  else of_uint63 (Uint63.of_Z n).

(** Lines 62-73. *)
Definition calculateRMSD (num_samples : Z) (true_value : float) (sample_vector : vec)
  : result float :=
  sum_sq_diff <-
    for_ 0 num_samples (fun i_samp sum_sq_diff =>
      s <- at_ sample_vector i_samp ;;
      Ok (sum_sq_diff + (true_value - s) * (true_value - s))%float) 0%float ;;
  let avg_sq_diff := (sum_sq_diff / double_of_int num_samples)%float in
  let rms_diff := sqrt avg_sq_diff in
  Ok rms_diff.

(** Lines 79-94: the returned [int] and [rms_differences] after the call. *)
Definition calculateRMSD_vector (num_samples : Z) (true_vector : vec)
    (sampled_vectors : matrix) (rms_differences : vec) : result (Z * vec) :=
  let true_vector_size := size true_vector in
  rms_differences <-
    for_ 0 true_vector_size (fun i rms_differences =>
      sum_sq_diff <-
        for_ 0 num_samples (fun i_samp sum_sq_diff =>
          t <- at_ true_vector i ;;
          row <- at_ sampled_vectors i_samp ;;
          s <- at_ row i ;;
          Ok (sum_sq_diff + (t - s) * (t - s))%float) 0%float ;;
      let avg_sq_diff := (sum_sq_diff / double_of_int num_samples)%float in
      let rms_diff := sqrt avg_sq_diff in
      Ok (push_back rms_differences rms_diff)) rms_differences ;;
  Ok (1, rms_differences).

(** Lines 101-115. *)
Definition calculateDose (num_bins : Z) (spectrum icrp_factors : vec) : result float :=
  let s_to_hr := 3600 in
  let msv_to_psv := 1e-9%float in
  ambient_dose_eq <-
    for_ 0 num_bins (fun i_bins ambient_dose_eq =>
      s <- at_ spectrum i_bins ;;
      f <- at_ icrp_factors i_bins ;;
      Ok (ambient_dose_eq + s * f)%float) 0%float ;;
  Ok (ambient_dose_eq * (double_of_int s_to_hr * msv_to_psv))%float.

(** Lines 121-129. *)
Definition calculateTotalCharge (num_measurements : Z) (measurements_nc : vec)
  : result float :=
  for_ 0 num_measurements (fun i_meas total_charge =>
    m <- at_ measurements_nc i_meas ;;
    Ok (total_charge + m)%float) 0%float.

(** Lines 135-143. *)
Definition calculateTotalFlux (num_bins : Z) (spectrum : vec) : result float :=
  for_ 0 num_bins (fun i_bin total_flux =>
    s <- at_ spectrum i_bin ;;
    Ok (total_flux + s)%float) 0%float.

(** Lines 152-162; the copy [normalized_energy] is not used. *)
Definition calculateAverageEnergy (num_bins : Z) (spectrum energy_bins : vec)
  : result float :=
  total_flux <- calculateTotalFlux num_bins spectrum ;;
  for_ 0 num_bins (fun i_bin avg_energy =>
    e <- at_ energy_bins i_bin ;;
    s <- at_ spectrum i_bin ;;
    Ok (avg_energy + e * s / total_flux)%float) 0%float.

(** Lines 169-177. *)
Definition calculateSumUncertainty (num_values : Z) (value_uncertainties : vec)
  : result float :=
  sum_uncertainty <-
    for_ 0 num_values (fun i sum_uncertainty =>
      u <- at_ value_uncertainties i ;;
      Ok (sum_uncertainty + pow_2 u)%float) 0%float ;;
  Ok (sqrt sum_uncertainty).

(** Lines 184-197. *)
Definition calculateEnergyUncertainty (num_bins : Z)
    (energy_bins spectrum spectrum_uncertainty : vec)
    (total_flux total_flux_uncertainty : float) : result float :=
  energy_uncertainty <-
    for_ 0 num_bins (fun i_bin energy_uncertainty =>
      e <- at_ energy_bins i_bin ;;
      s <- at_ spectrum i_bin ;;
      let temp1 := (e * s / total_flux)%float in
      u <- at_ spectrum_uncertainty i_bin ;;
      let temp2 := sqrt (pow_2 (u / s) + pow_2 (total_flux_uncertainty / total_flux)) in
      let temp3 := (temp1 * temp2)%float in
      Ok (energy_uncertainty + pow_2 temp3)%float) 0%float ;;
  Ok (sqrt energy_uncertainty).

(** The macro of [cmath]. *)
Definition M_PI : float := 3.14159265358979323846%float.

(** The sum of the three factors of the empirical formula, lines 215-232
    and 235: they do not depend on the arguments. *)
Definition fluence_factor : float :=
  let transmission_factor := 0.93%float in
  let room_surface_area := 2353374.529%float in
  let distance := 100%float in
  let fluence_direct_factor :=
    (transmission_factor / (double_of_int 4 * M_PI * pow_2 distance))%float in
  let fluence_scatter_factor := (5.4 * transmission_factor / room_surface_area)%float in
  let fluence_thermal_factor := (1.26 / room_surface_area)%float in
  (fluence_direct_factor + fluence_scatter_factor + fluence_thermal_factor)%float.

(** Lines 212-238. *)
Definition calculateSourceStrength (num_bins : Z) (spectrum : vec) (duration : Z)
    (dose_mu : float) : result float :=
  total_flux <- calculateTotalFlux num_bins spectrum ;;
  let mu_to_gy := 100%float in
  let fluence_total := (total_flux * double_of_int duration / dose_mu * mu_to_gy)%float in
  let source_strength := (fluence_total / fluence_factor)%float in
  Ok source_strength.

(** The sign bit is clear: +0, a positive finite number or +infinity. *)
Definition plus_signed (x : spec_float) : Prop :=
  match x with
  | S754_zero s | S754_infinity s | S754_finite s _ _ => s = false
  | S754_nan => False
  end.

(** [0 <= x]: a zero of either sign, a positive finite number or +infinity. *)
Definition at_least_zero (x : spec_float) : Prop :=
  match x with
  | S754_zero _ => True
  | S754_infinity s | S754_finite s _ _ => s = false
  | S754_nan => False
  end.

(** A positive finite number. *)
Definition finite_positive (x : spec_float) : Prop :=
  exists m e, x = S754_finite false m e.

(** [0 <= x] and [x] finite; [0 < x] and [x] finite. *)
Definition finite_at_least_zero (x : float) : bool :=
  ((0 <=? x) && (x <? infinity))%float.

Definition finite_above_zero (x : float) : bool :=
  ((0 <? x) && (x <? infinity))%float.

(** The result of a run with [d] added to its pass count. *)
Definition shift_count (d : Z) (r : result (Z * store)) : result (Z * store) :=
  match r with
  | Ok (k, s) => Ok (k + d, s)
  | OutOfRange i n => OutOfRange i n
  end.

(** Column [i] of the sampled vectors. *)
Definition column (sampled_vectors : matrix) (i : Z) : vec :=
  map (fun row => entry row i) sampled_vectors.

(** * Lemmas and theorems *)

(** ** Vectors and loops *)

Lemma at_nth {A : Type} (d : A) (v : list A) (i : Z) :
  0 <= i < size v -> at_ v i = Ok (nth (Z.to_nat i) v d).
Proof.
  unfold at_, size. intros Hi.
  destruct (i <? 0) eqn:Hneg; [apply Z.ltb_lt in Hneg; lia|].
  rewrite (nth_error_nth' v d) by lia. reflexivity.
Qed.

Lemma at_entry (v : vec) (i : Z) : 0 <= i < size v -> at_ v i = Ok (entry v i).
Proof. apply at_nth. Qed.

Lemma at_out {A : Type} (v : list A) (i : Z) :
  ~ (0 <= i < size v) -> at_ v i = OutOfRange i (size v).
Proof.
  unfold at_, size. intros Hi.
  destruct (i <? 0) eqn:Hneg; [reflexivity|].
  apply Z.ltb_ge in Hneg.
  destruct (nth_error v (Z.to_nat i)) eqn:E; [|reflexivity].
  assert (Z.to_nat i < length v)%nat by (apply nth_error_Some; congruence). lia.
Qed.

Lemma at_cell (R : matrix) (n m b : Z) :
  Forall (fun row => size row = n) R -> 0 <= m < size R -> 0 <= b < n ->
  (row <- at_ R m ;; at_ row b) = Ok (cell R m b).
Proof.
  intros Hcols Hm Hb. rewrite (at_nth [] R m Hm). cbn [bind].
  unfold cell. apply at_entry.
  rewrite Forall_forall in Hcols. rewrite (Hcols (nth (Z.to_nat m) R [])); [exact Hb|].
  apply nth_In. unfold size in Hm. lia.
Qed.

Lemma for_loop_inv {St : Type} (P : nat -> St -> Prop) (body : Z -> St -> result St) :
  forall (n : nat) (lo : Z) (s0 : St),
    P O s0 ->
    (forall (k : nat) (s : St), (k < n)%nat -> P k s ->
       exists s', body (lo + Z.of_nat k) s = Ok s' /\ P (S k) s') ->
    exists s', for_loop n lo body s0 = Ok s' /\ P n s'.
Proof.
  intros n. revert P. induction n as [|n IH]; intros P lo s0 H0 Hstep.
  - exists s0. split; [reflexivity | exact H0].
  - destruct (Hstep O s0) as [s1 [E1 P1]]; [lia | exact H0 |].
    rewrite Z.add_0_r in E1. cbn [for_loop]. rewrite E1. cbn [bind].
    apply (IH (fun k s => P (S k) s)); [exact P1|].
    intros k s Hk HP. destruct (Hstep (S k) s) as [s' [E' P']]; [lia | exact HP |].
    exists s'. split; [|exact P'].
    rewrite <- E'. f_equal. lia.
Qed.

Lemma sigma_succ (k : nat) (f : Z -> float) :
  sigma (Z.of_nat (S k)) f = (sigma (Z.of_nat k) f + f (Z.of_nat k))%float.
Proof.
  unfold sigma. rewrite !Nat2Z.id, seq_S, fold_left_app. reflexivity.
Qed.

Lemma sigma_ext (n : Z) (f g : Z -> float) :
  (forall k, 0 <= k < n -> f k = g k) -> sigma n f = sigma n g.
Proof.
  intros H. unfold sigma.
  assert (Hn : forall k, In k (seq 0 (Z.to_nat n)) -> 0 <= Z.of_nat k < n).
  { intros k Hk. apply in_seq in Hk. lia. }
  revert Hn. generalize 0%float. induction (seq 0 (Z.to_nat n)) as [|a l IH]; intros acc Hn.
  - reflexivity.
  - cbn [fold_left]. rewrite (H (Z.of_nat a)) by (apply Hn; left; reflexivity).
    apply IH. intros k Hk. apply Hn. right. exact Hk.
Qed.

Lemma tabulate_succ (k : nat) (f : Z -> float) :
  tabulate (Z.of_nat (S k)) f = push_back (tabulate (Z.of_nat k) f) (f (Z.of_nat k)).
Proof.
  unfold tabulate, push_back. rewrite !Nat2Z.id, seq_S, map_app. reflexivity.
Qed.

Lemma size_tabulate (n : Z) (f : Z -> float) : size (tabulate n f) = Z.max 0 n.
Proof. unfold size, tabulate. rewrite length_map, length_seq. lia. Qed.

Lemma entry_tabulate (n : Z) (f : Z -> float) (i : Z) :
  0 <= i < n -> entry (tabulate n f) i = f i.
Proof.
  intros Hi. unfold entry, tabulate.
  rewrite (nth_indep _ nan (f (Z.of_nat 0))) by (rewrite length_map, length_seq; lia).
  rewrite (map_nth (fun k => f (Z.of_nat k))), seq_nth by lia.
  f_equal. lia.
Qed.

Lemma tabulate_ext (n : Z) (f g : Z -> float) :
  (forall k, 0 <= k < n -> f k = g k) -> tabulate n f = tabulate n g.
Proof.
  intros H. unfold tabulate. apply map_ext_in. intros k Hk.
  apply in_seq in Hk. apply H. lia.
Qed.

(** A loop that adds one term per pass computes [sigma]. *)
Lemma for_sigma (n : Z) (body : Z -> float -> result float) (f : Z -> float) :
  (forall k acc, 0 <= k < n -> body k acc = Ok (acc + f k)%float) ->
  for_ 0 n body 0%float = Ok (sigma n f).
Proof.
  intros Hbody. unfold for_.
  destruct (for_loop_inv (fun k acc => acc = sigma (Z.of_nat k) f) body
              (Z.to_nat (n - 0)) 0 0%float) as [s [E Hs]].
  - reflexivity.
  - intros k acc Hk ->. eexists. split; [apply Hbody; lia|].
    rewrite sigma_succ. reflexivity.
  - rewrite E, Hs. unfold sigma. rewrite Nat2Z.id. do 3 f_equal. lia.
Qed.

(** A loop that pushes one entry per pass computes [tabulate]. *)
Lemma for_tabulate (n : Z) (body : Z -> vec -> result vec) (f : Z -> float) :
  (forall k acc, 0 <= k < n -> body k acc = Ok (push_back acc (f k))) ->
  for_ 0 n body [] = Ok (tabulate n f).
Proof.
  intros Hbody. unfold for_.
  destruct (for_loop_inv (fun k acc => acc = tabulate (Z.of_nat k) f) body
              (Z.to_nat (n - 0)) 0 []) as [s [E Hs]].
  - reflexivity.
  - intros k acc Hk ->. eexists. split; [apply Hbody; lia|].
    rewrite tabulate_succ. reflexivity.
  - rewrite E, Hs. unfold tabulate. rewrite Nat2Z.id. do 3 f_equal. lia.
Qed.

Lemma at_row (R : matrix) (m : Z) :
  0 <= m < size R -> at_ R m = Ok (nth (Z.to_nat m) R []).
Proof. apply at_nth. Qed.

Lemma size_row (R : matrix) (n m : Z) :
  Forall (fun row => size row = n) R -> 0 <= m < size R ->
  size (nth (Z.to_nat m) R []) = n.
Proof.
  intros Hcols Hm. rewrite Forall_forall in Hcols. apply Hcols.
  apply nth_In. unfold size in Hm. lia.
Qed.

Lemma skipn_nth_cons (v : vec) (k : nat) :
  (k < length v)%nat -> skipn k v = nth k v nan :: skipn (S k) v.
Proof.
  revert k. induction v as [|a v IH]; intros k Hk; [cbn in Hk; lia|].
  destruct k as [|k]; [reflexivity|].
  cbn [skipn nth]. apply IH. cbn in Hk. lia.
Qed.

Lemma replace_nth_app {A : Type} (pre : list A) (x y : A) (t : list A) :
  replace_nth (length pre) x (pre ++ y :: t) = pre ++ x :: t.
Proof. induction pre as [|a pre IH]; cbn; [reflexivity | now rewrite IH]. Qed.

Lemma length_tabulate (k : nat) (f : Z -> float) : length (tabulate (Z.of_nat k) f) = k.
Proof. unfold tabulate. now rewrite length_map, length_seq, Nat2Z.id. Qed.

(** In a vector whose first [k] entries have been rewritten, entry [k] is
    still the old one, and writing it extends the rewritten prefix. *)
Lemma entry_prefix (k : nat) (f : Z -> float) (v : vec) :
  (k < length v)%nat ->
  entry (tabulate (Z.of_nat k) f ++ skipn k v) (Z.of_nat k) = entry v (Z.of_nat k).
Proof.
  intros Hk. unfold entry. rewrite Nat2Z.id.
  rewrite app_nth2 by (rewrite length_tabulate; lia).
  rewrite length_tabulate, Nat.sub_diag, (skipn_nth_cons v k Hk). reflexivity.
Qed.

Lemma size_prefix (k : nat) (f : Z -> float) (v : vec) :
  (k <= length v)%nat -> size (tabulate (Z.of_nat k) f ++ skipn k v) = size v.
Proof.
  intros Hk. unfold size. rewrite length_app, length_tabulate, length_skipn. lia.
Qed.

Lemma assign_prefix (k : nat) (f : Z -> float) (v : vec) :
  (k < length v)%nat ->
  assign (tabulate (Z.of_nat k) f ++ skipn k v) (Z.of_nat k) (f (Z.of_nat k))
  = Ok (tabulate (Z.of_nat (S k)) f ++ skipn (S k) v).
Proof.
  intros Hk. unfold assign. rewrite size_prefix by lia. unfold size.
  replace ((0 <=? Z.of_nat k) && (Z.of_nat k <? Z.of_nat (length v))) with true
    by (symmetry; apply andb_true_iff; split; [apply Z.leb_le | apply Z.ltb_lt]; lia).
  rewrite Nat2Z.id, (skipn_nth_cons v k Hk).
  rewrite <- (length_tabulate k f) at 1. rewrite replace_nth_app.
  rewrite tabulate_succ. unfold push_back. rewrite <- app_assoc. reflexivity.
Qed.

(** ** The phases *)

Lemma compute_estimate_ok (num_measurements num_bins : Z) (st : store) :
  size (nns_response st) = num_measurements ->
  Forall (fun row => size row = num_bins) (nns_response st) ->
  size (spectrum st) = num_bins ->
  compute_estimate num_measurements num_bins st
  = Ok (tabulate num_measurements (estimated num_bins st)).
Proof.
  intros Hrows Hcols Hs. unfold compute_estimate.
  apply for_tabulate. intros m acc Hm.
  rewrite (for_sigma num_bins _
             (fun b => (cell (nns_response st) m b * entry (spectrum st) b)%float)).
  - reflexivity.
  - intros b t Hb.
    rewrite at_row by lia. cbn [bind].
    rewrite at_entry by (rewrite (size_row _ num_bins) by (auto; lia); lia). cbn [bind].
    rewrite at_entry by lia. reflexivity.
Qed.

Lemma compute_ratio_ok (num_measurements : Z) (mlem_estimate : vec) (st : store) :
  size (measurements st) = num_measurements ->
  size mlem_estimate = num_measurements ->
  mlem_ratio st = [] ->
  compute_ratio num_measurements mlem_estimate st
  = Ok (set_mlem_ratio st
          (tabulate num_measurements
             (fun m => (entry (measurements st) m / entry mlem_estimate m)%float))).
Proof.
  intros Hm He Hr. unfold compute_ratio, for_.
  set (f := fun m => (entry (measurements st) m / entry mlem_estimate m)%float).
  destruct (for_loop_inv
              (fun k s => s = set_mlem_ratio st (tabulate (Z.of_nat k) f))
              (fun i_meas st0 =>
                 m <- at_ (measurements st0) i_meas ;;
                 e <- at_ mlem_estimate i_meas ;;
                 Ok (set_mlem_ratio st0 (push_back (mlem_ratio st0) (m / e)%float)))
              (Z.to_nat (num_measurements - 0)) 0 st) as [s [E Hs]].
  - destruct st; cbn in *. subst. reflexivity.
  - intros k s Hk ->. cbn [measurements mlem_ratio set_mlem_ratio].
    rewrite !at_entry by lia. cbn [bind]. eexists. split; [reflexivity|].
    rewrite tabulate_succ. reflexivity.
  - rewrite E, Hs. do 3 f_equal. unfold size in Hm. lia.
Qed.

Lemma compute_correction_ok (num_measurements num_bins : Z) (st : store) :
  size (nns_response st) = num_measurements ->
  Forall (fun row => size row = num_bins) (nns_response st) ->
  size (mlem_ratio st) = num_measurements ->
  compute_correction num_measurements num_bins st
  = Ok (tabulate num_bins
          (fun b => sigma num_measurements
                      (fun m => (cell (nns_response st) m b * entry (mlem_ratio st) m)%float))).
Proof.
  intros Hrows Hcols Hr. unfold compute_correction.
  apply for_tabulate. intros b acc Hb.
  rewrite (for_sigma num_measurements _
             (fun m => (cell (nns_response st) m b * entry (mlem_ratio st) m)%float)).
  - reflexivity.
  - intros m t Hm.
    rewrite at_row by lia. cbn [bind].
    rewrite at_entry by (rewrite (size_row _ num_bins) by (auto; lia); lia). cbn [bind].
    rewrite at_entry by lia. reflexivity.
Qed.

Lemma apply_correction_ok (num_bins : Z) (mlem_correction : vec) (st : store) :
  size (spectrum st) = num_bins ->
  size mlem_correction = num_bins ->
  size (normalized_response st) = num_bins ->
  apply_correction num_bins mlem_correction st
  = Ok (set_spectrum st
          (tabulate num_bins
             (fun b => (entry (spectrum st) b * entry mlem_correction b
                        / entry (normalized_response st) b)%float))).
Proof.
  intros Hs Hc Hn. unfold apply_correction, for_.
  set (f := fun b => (entry (spectrum st) b * entry mlem_correction b
                      / entry (normalized_response st) b)%float).
  destruct (for_loop_inv
              (fun k s => s = set_spectrum st (tabulate (Z.of_nat k) f ++ skipn k (spectrum st)))
              (fun i_bin st0 =>
                 s <- at_ (spectrum st0) i_bin ;;
                 c <- at_ mlem_correction i_bin ;;
                 n <- at_ (normalized_response st0) i_bin ;;
                 v <- assign (spectrum st0) i_bin (s * c / n)%float ;;
                 Ok (set_spectrum st0 v))
              (Z.to_nat (num_bins - 0)) 0 st) as [s [E Hq]].
  - destruct st; reflexivity.
  - intros k s Hk ->. unfold size in *.
    cbn [spectrum normalized_response set_spectrum]. rewrite Z.add_0_l.
    rewrite at_entry by (rewrite size_prefix; unfold size; lia). cbn [bind].
    rewrite entry_prefix by lia.
    rewrite !at_entry by (unfold size; lia). cbn [bind].
    change (entry (spectrum st) (Z.of_nat k) * entry mlem_correction (Z.of_nat k)
            / entry (normalized_response st) (Z.of_nat k))%float with (f (Z.of_nat k)).
    rewrite assign_prefix by lia. cbn [bind]. eexists. split; reflexivity.
  - rewrite E, Hq. unfold size in *.
    rewrite skipn_all2 by lia. rewrite app_nil_r. do 3 f_equal. lia.
Qed.

Lemma scan_ratios_ok (error : float) (st : store) :
  forall (l pre : vec), mlem_ratio st = pre ++ l ->
    scan_ratios (length l) (size pre) error st = Ok (existsb (outside_band error) l).
Proof.
  induction l as [|r l IH]; intros pre Hst; [reflexivity|].
  cbn [length scan_ratios existsb].
  rewrite (at_nth nan) by (rewrite Hst; unfold size; rewrite length_app; cbn; lia).
  cbn [bind]. unfold size. rewrite Nat2Z.id, Hst, nth_middle.
  destruct (outside_band error r); [reflexivity|]. cbn [orb].
  replace (Z.of_nat (length pre) + 1) with (size (pre ++ [r]))
    by (unfold size; rewrite length_app; cbn; lia).
  apply IH. rewrite Hst, <- app_assoc. reflexivity.
Qed.

Lemma continue_mlem_ok (error : float) (num_measurements : Z) (st : store) :
  size (mlem_ratio st) = num_measurements ->
  continue_mlem error num_measurements st
  = Ok (existsb (outside_band error) (mlem_ratio st)).
Proof.
  intros Hr. unfold continue_mlem.
  replace (Z.to_nat num_measurements) with (length (mlem_ratio st))
    by (unfold size in Hr; lia).
  apply (scan_ratios_ok error st (mlem_ratio st) []). reflexivity.
Qed.

(** ** One pass *)

Lemma size_nonneg {A : Type} (v : list A) : 0 <= size v.
Proof. unfold size. lia. Qed.

Lemma size_tabulate_eq {A : Type} (v : list A) (n : Z) (f : Z -> float) :
  size v = n -> size (tabulate n f) = n.
Proof. intros H. rewrite size_tabulate. pose proof (size_nonneg v). lia. Qed.

Lemma correction_from_store (num_measurements num_bins : Z) (st : store) (r : vec) (b : Z) :
  r = tabulate num_measurements (ratio num_bins st) ->
  sigma num_measurements (fun m => (cell (nns_response st) m b * entry r m)%float)
  = correction num_measurements num_bins st b.
Proof.
  intros ->. unfold correction. apply sigma_ext. intros m Hm.
  now rewrite entry_tabulate.
Qed.

Lemma mlem_iteration_ok (error : float) (num_measurements num_bins : Z) (st : store) :
  well_formed num_measurements num_bins st ->
  mlem_iteration error num_measurements num_bins st
  = Ok (must_continue error num_measurements num_bins st,
        mlem_next num_measurements num_bins st).
Proof.
  intros [Hm Hs Hrows Hcols Hn]. unfold mlem_iteration.
  rewrite (compute_estimate_ok num_measurements num_bins) by assumption. cbn [bind].
  rewrite compute_ratio_ok
    by (try assumption; try reflexivity; apply (size_tabulate_eq (measurements st)), Hm).
  cbn [bind].
  rewrite (compute_correction_ok num_measurements num_bins)
    by (try assumption; apply (size_tabulate_eq (measurements st)), Hm).
  cbn [bind].
  rewrite apply_correction_ok
    by (try assumption; apply (size_tabulate_eq (spectrum st)), Hs).
  cbn [bind].
  rewrite continue_mlem_ok by (apply (size_tabulate_eq (measurements st)), Hm).
  cbn [bind]. unfold set_spectrum, set_mlem_ratio.
  cbn [measurements spectrum nns_response normalized_response mlem_ratio
       energy_correction].
  change (estimated num_bins
            (mkStore (measurements st) (spectrum st) (nns_response st)
               (normalized_response st) (clear (mlem_ratio st)) (energy_correction st)))
    with (estimated num_bins st).
  unfold must_continue, mlem_next. f_equal.
  assert (Hr : tabulate num_measurements
                 (fun m => (entry (measurements st) m
                            / entry (tabulate num_measurements (estimated num_bins st)) m)%float)
               = tabulate num_measurements (ratio num_bins st)).
  { apply tabulate_ext. intros m Hm'. unfold ratio. now rewrite entry_tabulate. }
  rewrite Hr. f_equal. f_equal.
  apply tabulate_ext. intros b Hb. unfold mlem_update.
  rewrite entry_tabulate by assumption.
  now rewrite (correction_from_store num_measurements num_bins st).
Qed.

Lemma mlem_next_wf (num_measurements num_bins : Z) (st : store) :
  well_formed num_measurements num_bins st ->
  well_formed num_measurements num_bins (mlem_next num_measurements num_bins st).
Proof.
  intros [Hm Hs Hrows Hcols Hn]. constructor; cbn; try assumption.
  apply (size_tabulate_eq (spectrum st)), Hs.
Qed.

Lemma compute_energy_correction_ok (beta : float) (num_bins : Z) (st : store) :
  size (spectrum st) = num_bins -> 2 <= num_bins ->
  compute_energy_correction beta num_bins st
  = Ok (set_energy_correction st (tabulate num_bins (energy_term beta num_bins st))).
Proof.
  intros Hs Hnb. unfold compute_energy_correction.
  cbn [spectrum set_energy_correction energy_correction clear].
  rewrite !at_entry by lia. cbn [bind]. unfold for_.
  set (f := energy_term beta num_bins st).
  match goal with
  | |- context [for_loop ?n ?lo ?body ?s0] =>
      destruct (for_loop_inv
                  (fun k s => s = set_energy_correction st (tabulate (Z.of_nat (S k)) f))
                  body n lo s0) as [s [E Hq]]
  end.
  - reflexivity.
  - intros k s Hk ->. cbn [spectrum set_energy_correction energy_correction].
    rewrite !at_entry by lia. cbn [bind]. eexists. split; [reflexivity|].
    rewrite (tabulate_succ (S k)). unfold set_energy_correction.
    cbn [measurements spectrum nns_response normalized_response mlem_ratio].
    do 2 f_equal. unfold f, energy_term, roughness.
    replace (Z.of_nat (S k) =? 0) with false by (symmetry; apply Z.eqb_neq; lia).
    replace (Z.of_nat (S k) =? num_bins - 1) with false by (symmetry; apply Z.eqb_neq; lia).
    replace (Z.of_nat (S k)) with (1 + Z.of_nat k) by lia. reflexivity.
  - rewrite E, Hq. cbn [bind spectrum set_energy_correction energy_correction].
    rewrite !at_entry by lia. cbn [bind]. unfold set_energy_correction.
    cbn [measurements spectrum nns_response normalized_response mlem_ratio
         energy_correction].
    do 2 f_equal.
    replace (tabulate num_bins f)
      with (tabulate (Z.of_nat (S (S (Z.to_nat (num_bins - 1 - 1))))) f)
      by (f_equal; lia).
    rewrite (tabulate_succ (S (Z.to_nat (num_bins - 1 - 1)))). f_equal.
    unfold f, energy_term, roughness.
    replace (Z.of_nat (S (Z.to_nat (num_bins - 1 - 1)))) with (num_bins - 1) by lia.
    replace (num_bins - 1 =? 0) with false by (symmetry; apply Z.eqb_neq; lia).
    rewrite Z.eqb_refl. do 4 f_equal. lia.
Qed.

Lemma apply_map_correction_ok (num_bins : Z) (mlem_correction : vec) (st : store) :
  size (spectrum st) = num_bins ->
  size mlem_correction = num_bins ->
  size (normalized_response st) = num_bins ->
  size (energy_correction st) = num_bins ->
  apply_map_correction num_bins mlem_correction st
  = Ok (set_spectrum st
          (tabulate num_bins
             (fun b => (entry (spectrum st) b * entry mlem_correction b
                        / (entry (normalized_response st) b
                           + entry (energy_correction st) b))%float))).
Proof.
  intros Hs Hc Hn He. unfold apply_map_correction, for_.
  set (f := fun b => (entry (spectrum st) b * entry mlem_correction b
                      / (entry (normalized_response st) b
                         + entry (energy_correction st) b))%float).
  match goal with
  | |- context [for_loop ?n ?lo ?body ?s0] =>
      destruct (for_loop_inv
                  (fun k s => s = set_spectrum st
                                    (tabulate (Z.of_nat k) f ++ skipn k (spectrum st)))
                  body n lo s0) as [s [E Hq]]
  end.
  - destruct st; reflexivity.
  - intros k s Hk ->. unfold size in *.
    cbn [spectrum normalized_response energy_correction set_spectrum]. rewrite Z.add_0_l.
    rewrite at_entry by (rewrite size_prefix; unfold size; lia). cbn [bind].
    rewrite entry_prefix by lia.
    rewrite !at_entry by (unfold size; lia). cbn [bind].
    change (entry (spectrum st) (Z.of_nat k) * entry mlem_correction (Z.of_nat k)
            / (entry (normalized_response st) (Z.of_nat k)
               + entry (energy_correction st) (Z.of_nat k)))%float with (f (Z.of_nat k)).
    rewrite assign_prefix by lia. cbn [bind]. eexists. split; reflexivity.
  - rewrite E, Hq. unfold size in *.
    rewrite skipn_all2 by lia. rewrite app_nil_r. do 3 f_equal. lia.
Qed.

Lemma map_iteration_ok (beta error : float) (num_measurements num_bins : Z) (st : store) :
  well_formed num_measurements num_bins st -> 2 <= num_bins ->
  map_iteration beta error num_measurements num_bins st
  = Ok (must_continue error num_measurements num_bins st,
        map_next beta num_measurements num_bins st).
Proof.
  intros [Hm Hs Hrows Hcols Hn] Hnb. unfold map_iteration.
  rewrite (compute_estimate_ok num_measurements num_bins) by assumption. cbn [bind].
  rewrite compute_ratio_ok
    by (try assumption; try reflexivity; apply (size_tabulate_eq (measurements st)), Hm).
  cbn [bind].
  rewrite (compute_correction_ok num_measurements num_bins)
    by (try assumption; apply (size_tabulate_eq (measurements st)), Hm).
  cbn [bind].
  rewrite (compute_energy_correction_ok beta num_bins) by assumption. cbn [bind].
  rewrite apply_map_correction_ok
    by (try assumption; apply (size_tabulate_eq (spectrum st)), Hs).
  cbn [bind].
  rewrite continue_mlem_ok by (apply (size_tabulate_eq (measurements st)), Hm).
  cbn [bind]. unfold set_spectrum, set_mlem_ratio, set_energy_correction.
  cbn [measurements spectrum nns_response normalized_response mlem_ratio
       energy_correction].
  change (estimated num_bins
            (mkStore (measurements st) (spectrum st) (nns_response st)
               (normalized_response st) (clear (mlem_ratio st)) (energy_correction st)))
    with (estimated num_bins st).
  unfold must_continue, map_next. f_equal.
  assert (Hr : tabulate num_measurements
                 (fun m => (entry (measurements st) m
                            / entry (tabulate num_measurements (estimated num_bins st)) m)%float)
               = tabulate num_measurements (ratio num_bins st)).
  { apply tabulate_ext. intros m Hm'. unfold ratio. now rewrite entry_tabulate. }
  rewrite Hr. f_equal. f_equal.
  apply tabulate_ext. intros b Hb. unfold map_update.
  rewrite !entry_tabulate by assumption.
  rewrite (correction_from_store num_measurements num_bins st) by reflexivity.
  reflexivity.
Qed.

Lemma map_next_wf (beta : float) (num_measurements num_bins : Z) (st : store) :
  well_formed num_measurements num_bins st ->
  well_formed num_measurements num_bins (map_next beta num_measurements num_bins st).
Proof.
  intros [Hm Hs Hrows Hcols Hn]. constructor; cbn; try assumption.
  apply (size_tabulate_eq (spectrum st)), Hs.
Qed.

(** ** The loops *)

Lemma mlem_loop_ok (error : float) (num_measurements num_bins : Z) :
  forall (fuel : nat) (mlem_index : Z) (st : store),
    well_formed num_measurements num_bins st ->
    mlem_loop fuel mlem_index error num_measurements num_bins st
    = Ok (mlem_run fuel mlem_index error num_measurements num_bins st).
Proof.
  unfold mlem_run.
  induction fuel as [|fuel IH]; intros mlem_index st Hwf; [reflexivity|].
  cbn [mlem_loop run_passes]. rewrite mlem_iteration_ok by assumption. cbn [bind].
  destruct (must_continue error num_measurements num_bins st); [|reflexivity].
  apply IH, mlem_next_wf, Hwf.
Qed.

Lemma map_loop_ok (beta error : float) (num_measurements num_bins : Z) :
  2 <= num_bins ->
  forall (fuel : nat) (mlem_index : Z) (st : store),
    well_formed num_measurements num_bins st ->
    map_loop fuel mlem_index beta error num_measurements num_bins st
    = Ok (map_run fuel mlem_index beta error num_measurements num_bins st).
Proof.
  intros Hnb. unfold map_run.
  induction fuel as [|fuel IH]; intros mlem_index st Hwf; [reflexivity|].
  cbn [map_loop run_passes]. rewrite map_iteration_ok by assumption. cbn [bind].
  destruct (must_continue error num_measurements num_bins st); [|reflexivity].
  apply IH, map_next_wf, Hwf.
Qed.

Lemma mlem_trace_ok (error : float) (num_measurements num_bins : Z) :
  forall (fuel : nat) (st : store),
    well_formed num_measurements num_bins st ->
    mlem_trace fuel error num_measurements num_bins st
    = visited (mlem_next num_measurements num_bins)
              (must_continue error num_measurements num_bins) fuel st.
Proof.
  induction fuel as [|fuel IH]; intros st Hwf; [reflexivity|].
  cbn [mlem_trace visited]. rewrite mlem_iteration_ok by assumption. f_equal.
  destruct (must_continue error num_measurements num_bins st); [|reflexivity].
  apply IH, mlem_next_wf, Hwf.
Qed.

Lemma map_trace_ok (beta error : float) (num_measurements num_bins : Z) :
  2 <= num_bins ->
  forall (fuel : nat) (st : store),
    well_formed num_measurements num_bins st ->
    map_trace fuel beta error num_measurements num_bins st
    = visited (map_next beta num_measurements num_bins)
              (must_continue error num_measurements num_bins) fuel st.
Proof.
  intros Hnb. induction fuel as [|fuel IH]; intros st Hwf; [reflexivity|].
  cbn [map_trace visited]. rewrite map_iteration_ok by assumption. f_equal.
  destruct (must_continue error num_measurements num_bins st); [|reflexivity].
  apply IH, map_next_wf, Hwf.
Qed.

Lemma visited_invariant (next : store -> store) (continue : store -> bool)
    (P : store -> Prop) :
  (forall s, P s -> P (next s)) ->
  forall (fuel : nat) (st : store),
    P st -> forall s, In s (visited next continue fuel st) -> P s.
Proof.
  intros Hnext. induction fuel as [|fuel IH]; intros st Hst s Hs; cbn [visited] in Hs.
  - destruct Hs.
  - destruct Hs as [<- | Hs]; [exact Hst|].
    destruct (continue st); [|destruct Hs].
    apply (IH (next st)); [apply Hnext, Hst | exact Hs].
Qed.

Lemma run_passes_bounds (next : store -> store) (continue : store -> bool) :
  forall (fuel : nat) (mlem_index : Z) (st : store),
    mlem_index <= fst (run_passes next continue fuel mlem_index st)
    <= mlem_index + Z.of_nat fuel.
Proof.
  induction fuel as [|fuel IH]; intros mlem_index st; cbn [run_passes].
  - cbn. lia.
  - destruct (continue st); [|cbn; lia].
    specialize (IH (mlem_index + 1) (next st)). lia.
Qed.

Lemma run_passes_early (next : store -> store) (continue : store -> bool) :
  forall (fuel : nat) (mlem_index : Z) (st : store),
    fst (run_passes next continue fuel mlem_index st) < mlem_index + Z.of_nat fuel ->
    exists s,
      nth_error (visited next continue fuel st)
                (Z.to_nat (fst (run_passes next continue fuel mlem_index st) - mlem_index))
      = Some s /\
      continue s = false.
Proof.
  induction fuel as [|fuel IH]; intros mlem_index st Hk; cbn [run_passes visited] in *.
  - cbn in Hk. lia.
  - destruct (continue st) eqn:Hc.
    + pose proof (run_passes_bounds next continue fuel (mlem_index + 1) (next st)) as Hb.
      destruct (IH (mlem_index + 1) (next st)) as [s [Hs Hcs]]; [lia|].
      exists s. split; [|exact Hcs].
      replace (Z.to_nat (fst (run_passes next continue fuel (mlem_index + 1) (next st))
                         - mlem_index))
        with (S (Z.to_nat (fst (run_passes next continue fuel (mlem_index + 1) (next st))
                           - (mlem_index + 1)))) by lia.
      exact Hs.
    + exists st. cbn [fst]. rewrite Z.sub_diag. split; [reflexivity | exact Hc].
Qed.

Lemma mlem_loop_bounds (error : float) (num_measurements num_bins : Z) :
  forall (fuel : nat) (mlem_index k : Z) (st st' : store),
    mlem_loop fuel mlem_index error num_measurements num_bins st = Ok (k, st') ->
    mlem_index <= k <= mlem_index + Z.of_nat fuel.
Proof.
  induction fuel as [|fuel IH]; intros mlem_index k st st' E; cbn [mlem_loop] in E.
  - injection E as <- _. lia.
  - destruct (mlem_iteration error num_measurements num_bins st) as [[[|] st1]|];
      cbn [bind] in E; [|injection E as <- _; lia|discriminate].
    apply IH in E. lia.
Qed.

Lemma map_loop_bounds (beta error : float) (num_measurements num_bins : Z) :
  forall (fuel : nat) (mlem_index k : Z) (st st' : store),
    map_loop fuel mlem_index beta error num_measurements num_bins st = Ok (k, st') ->
    mlem_index <= k <= mlem_index + Z.of_nat fuel.
Proof.
  induction fuel as [|fuel IH]; intros mlem_index k st st' E; cbn [map_loop] in E.
  - injection E as <- _. lia.
  - destruct (map_iteration beta error num_measurements num_bins st) as [[[|] st1]|];
      cbn [bind] in E; [|injection E as <- _; lia|discriminate].
    apply IH in E. lia.
Qed.

Lemma run_passes_never (next : store -> store) (continue : store -> bool) :
  forall (fuel : nat) (mlem_index : Z) (st : store),
    (forall s, In s (visited next continue fuel st) -> continue s = true) ->
    fst (run_passes next continue fuel mlem_index st) = mlem_index + Z.of_nat fuel.
Proof.
  induction fuel as [|fuel IH]; intros mlem_index st Hall; cbn [run_passes].
  - cbn. lia.
  - cbn [visited] in Hall. pose proof (Hall st (or_introl eq_refl)) as Hst.
    rewrite Hst in *.
    rewrite IH; [lia|]. intros s Hs. apply Hall. right. exact Hs.
Qed.

(** ** The pass of runMLEM *)

Lemma single_bin_wf : well_formed 1 1 single_bin.
Proof. constructor; try reflexivity. repeat constructor. Qed.

Lemma three_bins_wf : well_formed 2 3 three_bins.
Proof. constructor; try reflexivity. repeat constructor. Qed.

(** C1: on stores whose dimensions agree, one pass of the runMLEM loop
    computes estimated[m] as the sum over the bins of
    ResponseMatrix[m][b] * spectrum[b], leaves ratio[m] = measured[m] /
    estimated[m] in [mlem_ratio], computes correction[b] as the sum over the
    measurements of ResponseMatrix[m][b] * ratio[m], and replaces spectrum[b]
    with spectrum[b] * correction[b] / normalization[b]; estimated, ratio and
    correction are all taken from the spectrum the pass started with. The
    dimensions still agree after the pass, so this holds for every pass of a
    run. *)
Theorem mlem_iteration_computes (error : float) (num_measurements num_bins : Z) (st : store) :
  well_formed num_measurements num_bins st ->
  let R := nns_response st in
  let estimated_ m := sigma num_bins (fun b => (cell R m b * entry (spectrum st) b)%float) in
  let ratio_ m := (entry (measurements st) m / estimated_ m)%float in
  let correction_ b := sigma num_measurements (fun m => (cell R m b * ratio_ m)%float) in
  (exists c st',
    mlem_iteration error num_measurements num_bins st = Ok (c, st') /\
    size (mlem_ratio st') = num_measurements /\
    (forall m, 0 <= m < num_measurements -> entry (mlem_ratio st') m = ratio_ m) /\
    size (spectrum st') = num_bins /\
    (forall b, 0 <= b < num_bins ->
       entry (spectrum st') b
       = (entry (spectrum st) b * correction_ b / entry (normalized_response st) b)%float)) /\
  (forall fuel s, In s (mlem_trace fuel error num_measurements num_bins st) ->
                  well_formed num_measurements num_bins s).
Proof.
  intros Hwf R estimated_ ratio_ correction_. split.
  - exists (must_continue error num_measurements num_bins st),
           (mlem_next num_measurements num_bins st).
    split; [apply mlem_iteration_ok, Hwf|].
    destruct Hwf as [Hm Hs Hrows Hcols Hn]. cbn [mlem_next mlem_ratio spectrum].
    repeat split.
    + apply (size_tabulate_eq (measurements st)), Hm.
    + intros m Hm'. now rewrite entry_tabulate.
    + apply (size_tabulate_eq (spectrum st)), Hs.
    + intros b Hb. now rewrite entry_tabulate.
  - intros fuel s. rewrite mlem_trace_ok by assumption.
    apply (visited_invariant _ _ _ (mlem_next_wf num_measurements num_bins) fuel st Hwf).
Qed.

Lemma mlem_iteration_computes_witness :
  exists c st',
    mlem_iteration 0.0625 2 3 three_bins = Ok (c, st') /\
    mlem_ratio st' = [2; 0.5]%float /\
    spectrum st' = [1; 3; 3.5]%float.
Proof.
  destruct (mlem_iteration_computes 0.0625 2 3 three_bins three_bins_wf)
    as [[c [st' [E _]]] _].
  exists c, st'. split; [exact E|].
  vm_compute in E. injection E as _ <-. split; reflexivity.
Defined.

(** ** normalizeResponse *)

(** C7: for a response matrix of [num_measurements] rows and [num_bins]
    columns, normalizeResponse returns a vector of length [num_bins] whose
    entry i is the sum over the measurements m of ResponseMatrix[m][i], and
    leaves the matrix as it was; for [[1,2],[3,4]] it returns [4, 6]. *)
Theorem normalizeResponse_column_sums :
  (forall (num_bins num_measurements : Z) (system_response : matrix),
      0 <= num_bins ->
      size system_response = num_measurements ->
      Forall (fun row => size row = num_bins) system_response ->
      exists normalized_vector,
        normalizeResponse num_bins num_measurements system_response
        = Ok (normalized_vector, system_response) /\
        size normalized_vector = num_bins /\
        forall i, 0 <= i < num_bins ->
          entry normalized_vector i
          = sigma num_measurements (fun m => cell system_response m i)) /\
  normalizeResponse 2 2 [[1; 2]; [3; 4]]%float
  = Ok ([4; 6]%float, [[1; 2]; [3; 4]]%float).
Proof.
  split; [|reflexivity].
  intros num_bins num_measurements R Hnb Hrows Hcols.
  exists (tabulate num_bins (fun i => sigma num_measurements (fun m => cell R m i))).
  split; [|split].
  - unfold normalizeResponse.
    rewrite (for_tabulate num_bins _
               (fun i => sigma num_measurements (fun m => cell R m i))); [reflexivity|].
    intros i acc Hi.
    rewrite (for_sigma num_measurements _ (fun m => cell R m i)); [reflexivity|].
    intros m t Hm. rewrite at_row by lia. cbn [bind].
    rewrite at_entry by (rewrite (size_row _ num_bins) by (auto; lia); lia).
    reflexivity.
  - rewrite size_tabulate. lia.
  - intros i Hi. now rewrite entry_tabulate.
Qed.

Lemma normalizeResponse_column_sums_witness :
  exists normalized_vector,
    normalizeResponse 3 2 [[1; 2; 1]; [2; 1; 3]]%float
    = Ok (normalized_vector, [[1; 2; 1]; [2; 1; 3]]%float) /\
    size normalized_vector = 3 /\
    forall i, 0 <= i < 3 ->
      entry normalized_vector i
      = sigma 2 (fun m => cell [[1; 2; 1]; [2; 1; 3]]%float m i).
Proof.
  apply (proj1 normalizeResponse_column_sums 3 2 [[1; 2; 1]; [2; 1; 3]]%float).
  - lia.
  - reflexivity.
  - repeat constructor.
Defined.

(** ** A cutoff that allows no pass *)

(** C10: for a cutoff less than or equal to 0, runMLEM and runMAP return 0
    and leave every vector of the store, the spectrum, the ratio vector and
    the energy-correction vector included, exactly as it was passed in. *)
Theorem no_pass_when_cutoff_not_positive
    (cutoff : Z) (beta error : float) (num_measurements num_bins : Z) (st : store) :
  cutoff <= 0 ->
  runMLEM cutoff error num_measurements num_bins st = Ok (0, st) /\
  runMAP beta cutoff error num_measurements num_bins st = Ok (0, st).
Proof.
  intros Hc. unfold runMLEM, runMAP.
  replace (Z.to_nat cutoff) with O by lia. split; reflexivity.
Qed.

Lemma no_pass_when_cutoff_not_positive_witness :
  runMLEM (-3) 0.0625 2 3 three_bins = Ok (0, three_bins) /\
  runMAP 0.5 (-3) 0.0625 2 3 three_bins = Ok (0, three_bins).
Proof. apply no_pass_when_cutoff_not_positive. lia. Defined.

(** ** The pass of runMAP *)

(** C4: on stores whose dimensions agree and with at least two bins, one
    pass of the runMAP loop leaves in [energy_correction] the [num_bins]
    terms computed from the spectrum the pass started with,
    beta * (spectrum[0] - spectrum[1])^2 for bin 0,
    beta * ((spectrum[b]-spectrum[b-1])^2 + (spectrum[b]-spectrum[b+1])^2)
    for the bins 1 .. num_bins-2 and
    beta * (spectrum[num_bins-1] - spectrum[num_bins-2])^2 for the last bin,
    and replaces spectrum[b] with
    spectrum[b] * correction[b] / (normalization[b] + energy_correction[b]). *)
Theorem map_iteration_computes
    (beta error : float) (num_measurements num_bins : Z) (st : store) :
  well_formed num_measurements num_bins st -> 2 <= num_bins ->
  let s := spectrum st in
  exists c st',
    map_iteration beta error num_measurements num_bins st = Ok (c, st') /\
    size (energy_correction st') = num_bins /\
    entry (energy_correction st') 0 = (beta * pow_2 (entry s 0 - entry s 1))%float /\
    (forall b, 1 <= b <= num_bins - 2 ->
       entry (energy_correction st') b
       = (beta * (pow_2 (entry s b - entry s (b - 1))
                  + pow_2 (entry s b - entry s (b + 1))))%float) /\
    entry (energy_correction st') (num_bins - 1)
    = (beta * pow_2 (entry s (num_bins - 1) - entry s (num_bins - 2)))%float /\
    (forall b, 0 <= b < num_bins ->
       entry (spectrum st') b
       = (entry s b * correction num_measurements num_bins st b
          / (entry (normalized_response st) b + entry (energy_correction st') b))%float).
Proof.
  intros Hwf Hnb s.
  exists (must_continue error num_measurements num_bins st),
         (map_next beta num_measurements num_bins st).
  split; [apply map_iteration_ok; assumption|].
  destruct Hwf as [Hm Hs Hrows Hcols Hn]. cbn [map_next energy_correction spectrum].
  split; [apply (size_tabulate_eq (spectrum st)), Hs|].
  split; [rewrite entry_tabulate by lia; reflexivity|].
  split; [|split].
  - intros b Hb. rewrite entry_tabulate by lia. unfold energy_term, roughness.
    replace (b =? 0) with false by (symmetry; apply Z.eqb_neq; lia).
    replace (b =? num_bins - 1) with false by (symmetry; apply Z.eqb_neq; lia).
    reflexivity.
  - rewrite entry_tabulate by lia. unfold energy_term, roughness.
    replace (num_bins - 1 =? 0) with false by (symmetry; apply Z.eqb_neq; lia).
    rewrite Z.eqb_refl. unfold s. do 4 f_equal. lia.
  - intros b Hb. rewrite !entry_tabulate by lia. reflexivity.
Qed.

Lemma map_iteration_computes_witness :
  exists c st',
    map_iteration 1 0.0625 2 3 three_bins = Ok (c, st') /\
    energy_correction st' = [1; 5; 4]%float /\
    spectrum st' = [0.75; 1.125; 1.75]%float.
Proof.
  destruct (map_iteration_computes 1 0.0625 2 3 three_bins three_bins_wf)
    as [c [st' [E _]]]; [lia|].
  exists c, st'. split; [exact E|].
  vm_compute in E. injection E as _ <-. split; reflexivity.
Defined.

(** ** The pass at which a loop stops *)

Lemma first_converging_pass_shift (body : store -> result (bool * store)) (n : nat)
    (st st1 s' : store) :
  body st = Ok (true, st1) ->
  first_converging_pass body (Z.of_nat (S n)) st s' ->
  first_converging_pass body (Z.of_nat n) st1 s'.
Proof.
  intros E [Hall [s [Hs Hc]]]. split.
  - intros i Hi. destruct (Hall (i + 1)) as [si [si' [Hsi Hci]]]; [lia|].
    replace (Z.to_nat (i + 1)) with (S (Z.to_nat i)) in Hsi by lia.
    cbn [passes] in Hsi. rewrite E in Hsi. cbn [bind] in Hsi.
    exists si, si'. split; assumption.
  - rewrite Nat2Z.id in *. cbn [passes] in Hs. rewrite E in Hs. cbn [bind] in Hs.
    exists s. split; assumption.
Qed.

Lemma first_converging_pass_unshift (body : store -> result (bool * store)) (j : Z)
    (st st1 s' : store) :
  0 <= j ->
  body st = Ok (true, st1) ->
  first_converging_pass body j st1 s' ->
  first_converging_pass body (j + 1) st s'.
Proof.
  intros Hj E [Hall [s [Hs Hc]]]. split.
  - intros i Hi. destruct (Z.eq_dec i 0) as [-> | Hi0].
    + exists st, st1. split; [reflexivity | exact E].
    + destruct (Hall (i - 1)) as [si [si' [Hsi Hci]]]; [lia|].
      exists si, si'. split; [|exact Hci].
      replace (Z.to_nat i) with (S (Z.to_nat (i - 1))) by lia.
      cbn [passes]. rewrite E. exact Hsi.
  - exists s. split; [|exact Hc].
    replace (Z.to_nat (j + 1)) with (S (Z.to_nat j)) by lia.
    cbn [passes]. rewrite E. exact Hs.
Qed.

(** A loop of at most [fuel] passes that stops at the first pass ending
    with [continue_mlem] false returns the index of that pass. *)
Lemma loop_stops_at_first_converging_pass
    (body : store -> result (bool * store))
    (loop : nat -> Z -> store -> result (Z * store)) :
  (forall mlem_index st, loop O mlem_index st = Ok (mlem_index, st)) ->
  (forall fuel mlem_index st,
      loop (S fuel) mlem_index st
      = '(c, st') <- body st ;;
        if c then loop fuel (mlem_index + 1) st' else Ok (mlem_index, st')) ->
  forall (n fuel : nat) (mlem_index : Z) (st s' : store),
    (n < fuel)%nat ->
    first_converging_pass body (Z.of_nat n) st s' ->
    loop fuel mlem_index st = Ok (mlem_index + Z.of_nat n, s').
Proof.
  intros HO HS. induction n as [|n IH]; intros fuel mlem_index st s' Hn Hconv;
    (destruct fuel as [|fuel]; [lia|]); rewrite HS.
  - destruct Hconv as [_ [s [Hs Hc]]]. cbn in Hs. injection Hs as <-.
    rewrite Hc. cbn [bind]. now rewrite Z.add_0_r.
  - destruct (proj1 Hconv 0) as [s0 [s1 [Hs0 Hc0]]]; [lia|].
    cbn in Hs0. injection Hs0 as <-. rewrite Hc0. cbn [bind].
    rewrite (IH fuel (mlem_index + 1) s1 s'); [f_equal; f_equal; lia | lia |].
    apply (first_converging_pass_shift body n st); assumption.
Qed.

(** Conversely, a count below the bound of the loop is the index of the
    first pass that ended with [continue_mlem] false. *)
Lemma loop_count_is_first_converging_pass
    (body : store -> result (bool * store))
    (loop : nat -> Z -> store -> result (Z * store)) :
  (forall mlem_index st, loop O mlem_index st = Ok (mlem_index, st)) ->
  (forall fuel mlem_index st,
      loop (S fuel) mlem_index st
      = '(c, st') <- body st ;;
        if c then loop fuel (mlem_index + 1) st' else Ok (mlem_index, st')) ->
  forall (fuel : nat) (mlem_index k : Z) (st st' : store),
    loop fuel mlem_index st = Ok (k, st') ->
    mlem_index <= k /\
    (k < mlem_index + Z.of_nat fuel ->
     first_converging_pass body (k - mlem_index) st st').
Proof.
  intros HO HS. induction fuel as [|fuel IH]; intros mlem_index k st st' E.
  - rewrite HO in E. injection E as <- _. split; lia.
  - rewrite HS in E. destruct (body st) as [[[|] st1]|] eqn:Eb; cbn [bind] in E;
      [| |discriminate].
    + destruct (IH _ _ _ _ E) as [Hk Hconv]. split; [lia|]. intros Hlt.
      replace (k - mlem_index) with (k - (mlem_index + 1) + 1) by lia.
      apply (first_converging_pass_unshift body _ st st1); [lia | exact Eb |].
      apply Hconv. lia.
    + injection E as <- <-. split; [lia|]. intros _. rewrite Z.sub_diag. split.
      * intros i Hi. lia.
      * exists st. split; [reflexivity | exact Eb].
Qed.

(** A loop none of whose passes ends with [continue_mlem] false makes all
    its passes and returns their number. *)
Lemma loop_without_converging_pass
    (body : store -> result (bool * store))
    (loop : nat -> Z -> store -> result (Z * store)) :
  (forall mlem_index st, loop O mlem_index st = Ok (mlem_index, st)) ->
  (forall fuel mlem_index st,
      loop (S fuel) mlem_index st
      = '(c, st') <- body st ;;
        if c then loop fuel (mlem_index + 1) st' else Ok (mlem_index, st')) ->
  forall (fuel : nat) (mlem_index : Z) (st : store),
    (forall i, 0 <= i < Z.of_nat fuel ->
       exists si si', passes body (Z.to_nat i) st = Ok si /\ body si = Ok (true, si')) ->
    exists st',
      loop fuel mlem_index st = Ok (mlem_index + Z.of_nat fuel, st') /\
      passes body fuel st = Ok st'.
Proof.
  intros HO HS. induction fuel as [|fuel IH]; intros mlem_index st Hall.
  - exists st. rewrite HO, Z.add_0_r. split; reflexivity.
  - destruct (Hall 0) as [s0 [s1 [Hs0 Hc0]]]; [lia|].
    cbn in Hs0. injection Hs0 as <-.
    destruct (IH (mlem_index + 1) s1) as [st' [E Hp]].
    + intros i Hi. destruct (Hall (i + 1)) as [si [si' [Hsi Hci]]]; [lia|].
      replace (Z.to_nat (i + 1)) with (S (Z.to_nat i)) in Hsi by lia.
      cbn [passes] in Hsi. rewrite Hc0 in Hsi. cbn [bind] in Hsi.
      exists si, si'. split; assumption.
    + exists st'. rewrite HS, Hc0. cbn [bind passes]. rewrite Hc0. cbn [bind].
      split; [|exact Hp]. rewrite E. do 2 f_equal. lia.
Qed.

(** ** The returned iteration count *)

(** C3: for a positive cutoff and a store whose dimensions agree (with at
    least two bins for runMAP), runMLEM and runMAP return, and the returned
    count is between 0 and the cutoff; it is 0 when the first pass ends
    with [continue_mlem] false, it is the cutoff when every pass of the run
    ends with [continue_mlem] true, and when it is below the cutoff it is
    the index of the pass that ended with [continue_mlem] false. The count
    is the index of the first pass whose convergence test is satisfied: a
    count below the cutoff is that index, and whenever pass [j], counted
    from 0 and below the cutoff, is the first that ends with
    [continue_mlem] false, the count is [j] and the vectors returned are
    the ones that pass leaves; when each of the [cutoff] passes ends with
    [continue_mlem] true the count is the cutoff. On any store at all, a
    count that is returned is between 0 and the cutoff. *)
Theorem iteration_count_within_cutoff
    (cutoff : Z) (beta error : float) (num_measurements num_bins : Z) (st : store) :
  0 < cutoff ->
  (well_formed num_measurements num_bins st ->
   exists k st',
      runMLEM cutoff error num_measurements num_bins st = Ok (k, st') /\
      0 <= k <= cutoff /\
      ((exists st1, mlem_iteration error num_measurements num_bins st = Ok (false, st1)) ->
       k = 0) /\
      ((forall s, In s (mlem_trace (Z.to_nat cutoff) error num_measurements num_bins st) ->
                  exists s', mlem_iteration error num_measurements num_bins s = Ok (true, s')) ->
       k = cutoff) /\
      (k < cutoff ->
       exists s s',
         nth_error (mlem_trace (Z.to_nat cutoff) error num_measurements num_bins st)
                   (Z.to_nat k) = Some s /\
         mlem_iteration error num_measurements num_bins s = Ok (false, s')) /\
      (k < cutoff ->
       first_converging_pass (mlem_iteration error num_measurements num_bins) k st st') /\
      (forall j s',
          0 <= j < cutoff ->
          first_converging_pass (mlem_iteration error num_measurements num_bins) j st s' ->
          k = j /\ st' = s') /\
      ((forall i, 0 <= i < cutoff ->
          exists si si',
            passes (mlem_iteration error num_measurements num_bins) (Z.to_nat i) st = Ok si /\
            mlem_iteration error num_measurements num_bins si = Ok (true, si')) ->
       k = cutoff)) /\
  (well_formed num_measurements num_bins st -> 2 <= num_bins ->
   exists k st',
      runMAP beta cutoff error num_measurements num_bins st = Ok (k, st') /\
      0 <= k <= cutoff /\
      ((exists st1, map_iteration beta error num_measurements num_bins st = Ok (false, st1)) ->
       k = 0) /\
      ((forall s, In s (map_trace (Z.to_nat cutoff) beta error num_measurements num_bins st) ->
                  exists s', map_iteration beta error num_measurements num_bins s = Ok (true, s')) ->
       k = cutoff) /\
      (k < cutoff ->
       exists s s',
         nth_error (map_trace (Z.to_nat cutoff) beta error num_measurements num_bins st)
                   (Z.to_nat k) = Some s /\
         map_iteration beta error num_measurements num_bins s = Ok (false, s')) /\
      (k < cutoff ->
       first_converging_pass (map_iteration beta error num_measurements num_bins) k st st') /\
      (forall j s',
          0 <= j < cutoff ->
          first_converging_pass (map_iteration beta error num_measurements num_bins) j st s' ->
          k = j /\ st' = s') /\
      ((forall i, 0 <= i < cutoff ->
          exists si si',
            passes (map_iteration beta error num_measurements num_bins) (Z.to_nat i) st = Ok si /\
            map_iteration beta error num_measurements num_bins si = Ok (true, si')) ->
       k = cutoff)) /\
  (forall k st',
      runMLEM cutoff error num_measurements num_bins st = Ok (k, st') \/
      runMAP beta cutoff error num_measurements num_bins st = Ok (k, st') ->
      0 <= k <= cutoff).
Proof.
  intros Hc. split; [|split].
  - intros Hwf.
    pose proof (mlem_loop_ok error num_measurements num_bins (Z.to_nat cutoff) 0 st Hwf)
      as Eloop.
    unfold mlem_run in Eloop.
    pose (body := mlem_iteration error num_measurements num_bins).
    pose (loop := fun fuel mlem_index s =>
                    mlem_loop fuel mlem_index error num_measurements num_bins s).
    assert (HO : forall mlem_index s, loop O mlem_index s = Ok (mlem_index, s))
      by reflexivity.
    assert (HS : forall fuel mlem_index s,
               loop (S fuel) mlem_index s
               = '(c, s') <- body s ;;
                 if c then loop fuel (mlem_index + 1) s' else Ok (mlem_index, s'))
      by reflexivity.
    unfold runMLEM. rewrite mlem_loop_ok by assumption. unfold mlem_run.
    rewrite mlem_trace_ok by assumption.
    exists (fst (run_passes (mlem_next num_measurements num_bins)
                   (must_continue error num_measurements num_bins) (Z.to_nat cutoff) 0 st)),
           (snd (run_passes (mlem_next num_measurements num_bins)
                   (must_continue error num_measurements num_bins) (Z.to_nat cutoff) 0 st)).
    rewrite (surjective_pairing
               (run_passes (mlem_next num_measurements num_bins)
                  (must_continue error num_measurements num_bins) (Z.to_nat cutoff) 0 st))
      in Eloop.
    set (next := mlem_next num_measurements num_bins) in *.
    set (continue := must_continue error num_measurements num_bins) in *.
    split; [now rewrite <- surjective_pairing|].
    pose proof (run_passes_bounds next continue (Z.to_nat cutoff) 0 st) as Hb.
    split; [lia|]. split; [|split; [|split; [|split; [|split]]]].
    + intros [st1 E]. rewrite mlem_iteration_ok in E by assumption.
      injection E as Hcont _. fold continue in Hcont.
      destruct (Z.to_nat cutoff) as [|fuel] eqn:Hf; [lia|].
      cbn [run_passes]. rewrite Hcont. reflexivity.
    + intros Hall. rewrite run_passes_never; [lia|].
      intros s Hs. destruct (Hall s Hs) as [s' E].
      assert (Hwfs : well_formed num_measurements num_bins s).
      { apply (visited_invariant next continue _
                 (mlem_next_wf num_measurements num_bins) _ st Hwf s Hs). }
      rewrite mlem_iteration_ok in E by assumption. now injection E.
    + intros Hk.
      destruct (run_passes_early next continue (Z.to_nat cutoff) 0 st) as [s [Hs Hcs]];
        [lia|].
      rewrite Z.sub_0_r in Hs.
      exists s, (next s). split; [exact Hs|].
      assert (Hwfs : well_formed num_measurements num_bins s).
      { apply (visited_invariant next continue _
                 (mlem_next_wf num_measurements num_bins) (Z.to_nat cutoff) st Hwf s).
        eapply nth_error_In, Hs. }
      rewrite mlem_iteration_ok by assumption. fold continue. now rewrite Hcs.
    + intros Hk.
      destruct (loop_count_is_first_converging_pass body loop HO HS _ _ _ _ _ Eloop)
        as [_ H].
      rewrite Z.sub_0_r in H. apply H. lia.
    + intros j s' Hj Hconv.
      pose proof (loop_stops_at_first_converging_pass body loop HO HS
                    (Z.to_nat j) (Z.to_nat cutoff) 0 st s' ltac:(lia)) as H.
      rewrite Z2Nat.id in H by lia. specialize (H Hconv).
      unfold loop in H. rewrite Eloop in H. injection H as H1 H2.
      split; [lia | exact H2].
    + intros Hall.
      destruct (loop_without_converging_pass body loop HO HS (Z.to_nat cutoff) 0 st)
        as [s' [E _]].
      { intros i Hi. apply Hall. lia. }
      unfold loop in E. rewrite Eloop in E. injection E as E _. lia.
  - intros Hwf Hnb.
    pose proof (map_loop_ok beta error num_measurements num_bins Hnb (Z.to_nat cutoff) 0 st
                  Hwf) as Eloop.
    unfold map_run in Eloop.
    pose (body := map_iteration beta error num_measurements num_bins).
    pose (loop := fun fuel mlem_index s =>
                    map_loop fuel mlem_index beta error num_measurements num_bins s).
    assert (HO : forall mlem_index s, loop O mlem_index s = Ok (mlem_index, s))
      by reflexivity.
    assert (HS : forall fuel mlem_index s,
               loop (S fuel) mlem_index s
               = '(c, s') <- body s ;;
                 if c then loop fuel (mlem_index + 1) s' else Ok (mlem_index, s'))
      by reflexivity.
    unfold runMAP. rewrite map_loop_ok by assumption. unfold map_run.
    rewrite map_trace_ok by assumption.
    exists (fst (run_passes (map_next beta num_measurements num_bins)
                   (must_continue error num_measurements num_bins) (Z.to_nat cutoff) 0 st)),
           (snd (run_passes (map_next beta num_measurements num_bins)
                   (must_continue error num_measurements num_bins) (Z.to_nat cutoff) 0 st)).
    rewrite (surjective_pairing
               (run_passes (map_next beta num_measurements num_bins)
                  (must_continue error num_measurements num_bins) (Z.to_nat cutoff) 0 st))
      in Eloop.
    set (next := map_next beta num_measurements num_bins) in *.
    set (continue := must_continue error num_measurements num_bins) in *.
    split; [now rewrite <- surjective_pairing|].
    pose proof (run_passes_bounds next continue (Z.to_nat cutoff) 0 st) as Hb.
    split; [lia|]. split; [|split; [|split; [|split; [|split]]]].
    + intros [st1 E]. rewrite map_iteration_ok in E by assumption.
      injection E as Hcont _. fold continue in Hcont.
      destruct (Z.to_nat cutoff) as [|fuel] eqn:Hf; [lia|].
      cbn [run_passes]. rewrite Hcont. reflexivity.
    + intros Hall. rewrite run_passes_never; [lia|].
      intros s Hs. destruct (Hall s Hs) as [s' E].
      assert (Hwfs : well_formed num_measurements num_bins s).
      { apply (visited_invariant next continue _
                 (map_next_wf beta num_measurements num_bins) _ st Hwf s Hs). }
      rewrite map_iteration_ok in E by assumption. now injection E.
    + intros Hk.
      destruct (run_passes_early next continue (Z.to_nat cutoff) 0 st) as [s [Hs Hcs]];
        [lia|].
      rewrite Z.sub_0_r in Hs.
      exists s, (next s). split; [exact Hs|].
      assert (Hwfs : well_formed num_measurements num_bins s).
      { apply (visited_invariant next continue _
                 (map_next_wf beta num_measurements num_bins) (Z.to_nat cutoff) st Hwf s).
        eapply nth_error_In, Hs. }
      rewrite map_iteration_ok by assumption. fold continue. now rewrite Hcs.
    + intros Hk.
      destruct (loop_count_is_first_converging_pass body loop HO HS _ _ _ _ _ Eloop)
        as [_ H].
      rewrite Z.sub_0_r in H. apply H. lia.
    + intros j s' Hj Hconv.
      pose proof (loop_stops_at_first_converging_pass body loop HO HS
                    (Z.to_nat j) (Z.to_nat cutoff) 0 st s' ltac:(lia)) as H.
      rewrite Z2Nat.id in H by lia. specialize (H Hconv).
      unfold loop in H. rewrite Eloop in H. injection H as H1 H2.
      split; [lia | exact H2].
    + intros Hall.
      destruct (loop_without_converging_pass body loop HO HS (Z.to_nat cutoff) 0 st)
        as [s' [E _]].
      { intros i Hi. apply Hall. lia. }
      unfold loop in E. rewrite Eloop in E. injection E as E _. lia.
  - intros k st' [E | E].
    + apply mlem_loop_bounds in E. lia.
    + apply map_loop_bounds in E. lia.
Qed.

(** On [single_bin] with cutoff 50 the first pass ends with the ratio 5 and
    the second with the ratio 1: the count returned is 1. *)
Lemma iteration_count_within_cutoff_witness :
  exists st', runMLEM 50 0.0625 1 1 single_bin = Ok (1, st').
Proof.
  destruct (iteration_count_within_cutoff 50 0 0.0625 1 1 single_bin)
    as [H _]; [lia|].
  destruct (H single_bin_wf) as [k [st' [E [_ [_ [_ [_ [_ [Hfirst _]]]]]]]]].
  destruct (Hfirst 1 (mkStore [5%float] [5%float] [[1%float]] [1%float] [1%float] []))
    as [Hk _]; [lia | |].
  - split.
    + intros i Hi. assert (i = 0) as -> by lia.
      eexists _, _. split; reflexivity.
    + eexists. split; reflexivity.
  - exists st'. rewrite Hk in E. exact E.
Defined.

(** ** What a run leaves alone *)

Lemma untouched_refl (st : store) : untouched st st.
Proof. repeat split. Qed.

Lemma bind_Ok {A B : Type} (r : result A) (k : A -> result B) (b : B) :
  bind r k = Ok b -> exists a, r = Ok a /\ k a = Ok b.
Proof. destruct r as [a|i n]; cbn; [eauto | discriminate]. Qed.

Ltac bind_inv H :=
  let a := fresh "a" in
  let E := fresh "E" in
  apply bind_Ok in H; destruct H as [a [E H]].

Tactic Notation "bind_name" hyp(H) "as" ident(a) ident(E) :=
  apply bind_Ok in H; destruct H as [a [E H]].

Lemma for_loop_preserves {St : Type} (Q : St -> Prop) (body : Z -> St -> result St) :
  (forall i s s', body i s = Ok s' -> Q s -> Q s') ->
  forall (n : nat) (lo : Z) (s s' : St), for_loop n lo body s = Ok s' -> Q s -> Q s'.
Proof.
  intros Hbody. induction n as [|n IH]; intros lo s s' E Hs; cbn [for_loop] in E.
  - injection E as <-. exact Hs.
  - bind_inv E. apply (IH (lo + 1) a s' E). apply (Hbody lo s a); assumption.
Qed.

Lemma compute_ratio_untouched (st0 : store) (num_measurements : Z) (mlem_estimate : vec)
    (st st' : store) :
  compute_ratio num_measurements mlem_estimate st = Ok st' ->
  untouched st0 st -> untouched st0 st'.
Proof.
  unfold compute_ratio, for_. apply for_loop_preserves.
  intros i s s' E Hs. do 2 bind_inv E. injection E as <-. exact Hs.
Qed.

Lemma apply_correction_untouched (st0 : store) (num_bins : Z) (mlem_correction : vec)
    (st st' : store) :
  apply_correction num_bins mlem_correction st = Ok st' ->
  untouched st0 st -> untouched st0 st'.
Proof.
  unfold apply_correction, for_. apply for_loop_preserves.
  intros i s s' E Hs. do 4 bind_inv E. injection E as <-. exact Hs.
Qed.

Lemma apply_map_correction_untouched (st0 : store) (num_bins : Z) (mlem_correction : vec)
    (st st' : store) :
  apply_map_correction num_bins mlem_correction st = Ok st' ->
  untouched st0 st -> untouched st0 st'.
Proof.
  unfold apply_map_correction, for_. apply for_loop_preserves.
  intros i s s' E Hs. do 5 bind_inv E. injection E as <-. exact Hs.
Qed.

Lemma compute_energy_correction_untouched (st0 : store) (beta : float) (num_bins : Z)
    (st st' : store) :
  compute_energy_correction beta num_bins st = Ok st' ->
  untouched st0 st -> untouched st0 st'.
Proof.
  unfold compute_energy_correction. intros E Hs.
  bind_name E as s0 E0. bind_name E as s1 E1. bind_name E as st1 Eloop.
  assert (Ha : untouched st0 st1).
  { unfold for_ in Eloop.
    eapply (for_loop_preserves (untouched st0)); [|exact Eloop|exact Hs].
    intros i s s' E' Hq. do 3 bind_inv E'. injection E' as <-. exact Hq. }
  do 2 bind_inv E. injection E as <-. exact Ha.
Qed.

Lemma mlem_iteration_untouched (error : float) (num_measurements num_bins : Z)
    (st st' : store) (c : bool) :
  mlem_iteration error num_measurements num_bins st = Ok (c, st') -> untouched st st'.
Proof.
  unfold mlem_iteration. intros E. do 5 bind_inv E. injection E as _ <-.
  eapply apply_correction_untouched; [eassumption|].
  eapply compute_ratio_untouched; [eassumption|]. repeat split.
Qed.

Lemma map_iteration_untouched (beta error : float) (num_measurements num_bins : Z)
    (st st' : store) (c : bool) :
  map_iteration beta error num_measurements num_bins st = Ok (c, st') -> untouched st st'.
Proof.
  unfold map_iteration. intros E. do 6 bind_inv E. injection E as _ <-.
  eapply apply_map_correction_untouched; [eassumption|].
  eapply compute_energy_correction_untouched; [eassumption|].
  eapply compute_ratio_untouched; [eassumption|]. repeat split.
Qed.

Lemma untouched_trans (a b c : store) : untouched a b -> untouched b c -> untouched a c.
Proof.
  intros [H1 [H2 H3]] [H4 [H5 H6]]. repeat split; congruence.
Qed.

Lemma mlem_loop_untouched (error : float) (num_measurements num_bins : Z) :
  forall (fuel : nat) (mlem_index k : Z) (st st' : store),
    mlem_loop fuel mlem_index error num_measurements num_bins st = Ok (k, st') ->
    untouched st st' /\
    forall s, In s (mlem_trace fuel error num_measurements num_bins st) -> untouched st s.
Proof.
  induction fuel as [|fuel IH]; intros mlem_index k st st' E;
    cbn [mlem_loop mlem_trace] in *.
  - injection E as _ <-. split; [apply untouched_refl | intros s []].
  - bind_name E as a E0. destruct a as [c st1]. rewrite E0.
    pose proof (mlem_iteration_untouched _ _ _ _ _ _ E0) as H1.
    destruct c.
    + destruct (IH _ _ _ _ E) as [H2 H3]. split.
      * eapply untouched_trans; eassumption.
      * intros s [<- | Hs]; [apply untouched_refl|].
        eapply untouched_trans; [exact H1 | apply H3, Hs].
    + injection E as _ <-. split; [exact H1|].
      intros s [<- | []]. apply untouched_refl.
Qed.

Lemma map_loop_untouched (beta error : float) (num_measurements num_bins : Z) :
  forall (fuel : nat) (mlem_index k : Z) (st st' : store),
    map_loop fuel mlem_index beta error num_measurements num_bins st = Ok (k, st') ->
    untouched st st' /\
    forall s, In s (map_trace fuel beta error num_measurements num_bins st) -> untouched st s.
Proof.
  induction fuel as [|fuel IH]; intros mlem_index k st st' E;
    cbn [map_loop map_trace] in *.
  - injection E as _ <-. split; [apply untouched_refl | intros s []].
  - bind_name E as a E0. destruct a as [c st1]. rewrite E0.
    pose proof (map_iteration_untouched _ _ _ _ _ _ _ E0) as H1.
    destruct c.
    + destruct (IH _ _ _ _ E) as [H2 H3]. split.
      * eapply untouched_trans; eassumption.
      * intros s [<- | Hs]; [apply untouched_refl|].
        eapply untouched_trans; [exact H1 | apply H3, Hs].
    + injection E as _ <-. split; [exact H1|].
      intros s [<- | []]. apply untouched_refl.
Qed.

(** C9: whenever runMLEM or runMAP returns, the measurement vector, the
    response matrix and the normalization vector are what they were when
    the call started, in the store returned and in every store in which a
    pass of the loop started; runMLEM and runMAP write only [spectrum],
    [mlem_ratio] and (runMAP) [energy_correction]. The vectors of the
    store are distinct objects. *)
Theorem run_leaves_inputs_untouched
    (cutoff : Z) (beta error : float) (num_measurements num_bins : Z)
    (st st' : store) (k : Z) :
  (runMLEM cutoff error num_measurements num_bins st = Ok (k, st') ->
   untouched st st' /\
   energy_correction st' = energy_correction st /\
   forall s, In s (mlem_trace (Z.to_nat cutoff) error num_measurements num_bins st) ->
             untouched st s) /\
  (runMAP beta cutoff error num_measurements num_bins st = Ok (k, st') ->
   untouched st st' /\
   forall s, In s (map_trace (Z.to_nat cutoff) beta error num_measurements num_bins st) ->
             untouched st s).
Proof.
  split; intros E.
  - destruct (mlem_loop_untouched _ _ _ _ _ _ _ _ E) as [H1 H2].
    split; [exact H1|]. split; [|exact H2].
    clear H1 H2. unfold runMLEM in E. revert E.
    generalize 0. generalize (Z.to_nat cutoff). clear cutoff.
    intros fuel. revert st. induction fuel as [|fuel IH]; intros st i E; cbn [mlem_loop] in E.
    + now injection E as _ <-.
    + bind_name E as a E0. destruct a as [c st1].
      assert (H1 : energy_correction st1 = energy_correction st).
      { clear E. unfold mlem_iteration in E0.
        bind_name E0 as est Eest. bind_name E0 as sr Er. bind_name E0 as cor Ecor.
        bind_name E0 as su Eu. bind_name E0 as c' Ec. injection E0 as _ <-.
        transitivity (energy_correction sr).
        - unfold apply_correction, for_ in Eu.
          eapply (for_loop_preserves (fun s => energy_correction s = energy_correction sr));
            [|exact Eu|reflexivity].
          intros j s s' E' Hq. do 4 bind_inv E'. now injection E' as <-.
        - unfold compute_ratio, for_ in Er.
          eapply (for_loop_preserves (fun s => energy_correction s = energy_correction st));
            [|exact Er|reflexivity].
          intros j s s' E' Hq. do 2 bind_inv E'. now injection E' as <-. }
      destruct c.
      * rewrite (IH _ _ E). exact H1.
      * now injection E as _ <-.
  - exact (map_loop_untouched _ _ _ _ _ _ _ _ _ E).
Qed.

Lemma run_leaves_inputs_untouched_witness :
  exists k st',
    runMLEM 3 0.0625 2 3 three_bins = Ok (k, st') /\ untouched three_bins st'.
Proof.
  pose proof (mlem_loop_ok 0.0625 2 3 3 0 three_bins three_bins_wf) as E.
  destruct (mlem_run 3 0 0.0625 2 3 three_bins) as [k st'].
  exists k, st'. split; [exact E|].
  exact (proj1 (proj1 (run_leaves_inputs_untouched 3 0 0.0625 2 3 three_bins st' k) E)).
Defined.

(** ** Comparisons and zeros of binary64 numbers *)

Module Double.

Local Open Scope float_scope.

Lemma Prim2SF_zero : Prim2SF 0 = S754_zero false.
Proof. reflexivity. Qed.

Lemma Prim2SF_infinity : Prim2SF infinity = S754_infinity false.
Proof. reflexivity. Qed.

Lemma is_nan_Prim2SF (x : float) : is_nan x = true <-> Prim2SF x = S754_nan.
Proof.
  unfold Prim2SF. destruct (is_nan x); [tauto|].
  split; [discriminate|].
  destruct (is_zero x); [discriminate|].
  destruct (is_infinity x); [discriminate|].
  destruct (Z.frexp x) as [r e].
  destruct (shr_fexp _ _ _ _ _) as [shr e'].
  destruct (shr_m shr); discriminate.
Qed.

Lemma SFcompare_None (a b : spec_float) :
  SFcompare a b = None <-> a = S754_nan \/ b = S754_nan.
Proof.
  destruct a as [sa|sa| |sa ma ea], b as [sb|sb| |sb mb eb]; cbn;
    split; intros H; try discriminate; try tauto;
    try (destruct H; discriminate).
Qed.

Lemma SFcompare_antisym (a b : spec_float) :
  SFcompare b a = option_map CompOpp (SFcompare a b).
Proof.
  destruct a as [sa|sa| |sa ma ea], b as [sb|sb| |sb mb eb]; cbn;
    try reflexivity;
    try (destruct sa; reflexivity); try (destruct sb; reflexivity);
    try (destruct sa, sb; reflexivity).
  destruct sa, sb; try reflexivity; f_equal.
  - rewrite (Z.compare_antisym ea eb). destruct (ea ?= eb)%Z; cbn; try reflexivity.
    f_equal. apply ZC4.
  - rewrite (Z.compare_antisym ea eb). destruct (ea ?= eb)%Z; cbn; try reflexivity.
    apply ZC4.
Qed.

Lemma leb_negb_ltb (x y : float) :
  is_nan x = false -> is_nan y = false -> (x <=? y) = negb (y <? x).
Proof.
  intros Hx Hy. rewrite leb_spec, ltb_spec. unfold SFleb, SFltb.
  rewrite (SFcompare_antisym (Prim2SF x) (Prim2SF y)).
  destruct (SFcompare (Prim2SF x) (Prim2SF y)) as [[| |]|] eqn:E; try reflexivity.
  apply SFcompare_None in E. rewrite <- !is_nan_Prim2SF in E.
  destruct E; congruence.
Qed.

Lemma ltb_not_nan (x y : float) : (x <? y) = true -> is_nan x = false /\ is_nan y = false.
Proof.
  rewrite ltb_spec. unfold SFltb. intros H.
  destruct (SFcompare (Prim2SF x) (Prim2SF y)) eqn:E; [|discriminate].
  split.
  - destruct (is_nan x) eqn:N; [|reflexivity].
    apply is_nan_Prim2SF in N. rewrite N in E. discriminate.
  - destruct (is_nan y) eqn:N; [|reflexivity].
    apply is_nan_Prim2SF in N. rewrite N in E. destruct (Prim2SF x); discriminate.
Qed.

Lemma leb_nan_l (x y : float) : is_nan x = true -> (x <=? y) = false.
Proof.
  intros N. rewrite leb_spec. apply is_nan_Prim2SF in N. rewrite N. reflexivity.
Qed.

Lemma leb_nan_r (x y : float) : is_nan y = true -> (x <=? y) = false.
Proof.
  intros N. rewrite leb_spec. apply is_nan_Prim2SF in N. rewrite N.
  destruct (Prim2SF x); reflexivity.
Qed.

Lemma is_zero_Prim2SF (x : float) :
  is_zero x = true <-> exists s, Prim2SF x = S754_zero s.
Proof.
  unfold is_zero. rewrite eqb_spec. change (Prim2SF zero) with (S754_zero false).
  split.
  - destruct (Prim2SF x) as [s|s| |s m e]; cbn; try discriminate.
    + intros _. now exists s.
    + destruct s; discriminate.
    + destruct s; discriminate.
  - intros [s ->]. reflexivity.
Qed.

(** A finite non-negative number is a zero or a positive finite number. *)
Lemma finite_nonneg_Prim2SF (c : float) :
  (0 <=? c) = true -> (c <? infinity) = true ->
  (exists s, Prim2SF c = S754_zero s) \/ (exists m e, Prim2SF c = S754_finite false m e).
Proof.
  rewrite leb_spec, ltb_spec.
  change (Prim2SF 0) with (S754_zero false).
  change (Prim2SF infinity) with (S754_infinity false).
  destruct (Prim2SF c) as [s|s| |s m e]; cbn; try discriminate.
  - intros _ _. left. now exists s.
  - destruct s; discriminate.
  - destruct s; [discriminate|]. intros _ _. right. now exists m, e.
Qed.

Lemma positive_Prim2SF (d : float) :
  (0 <? d) = true ->
  Prim2SF d = S754_infinity false \/ (exists m e, Prim2SF d = S754_finite false m e).
Proof.
  rewrite ltb_spec. change (Prim2SF 0) with (S754_zero false).
  destruct (Prim2SF d) as [s|s| |s m e]; cbn; try discriminate.
  - destruct s; [discriminate|]. now left.
  - destruct s; [discriminate|]. intros _. right. now exists m, e.
Qed.

Lemma zero_lock_step (s c d : float) :
  is_zero s = true -> (0 <=? c) = true -> (c <? infinity) = true -> (0 <? d) = true ->
  is_zero (s * c / d) = true.
Proof.
  intros Hs Hc Hfin Hd.
  apply is_zero_Prim2SF in Hs. destruct Hs as [ss Hs].
  apply is_zero_Prim2SF. rewrite div_spec, mul_spec, Hs.
  destruct (finite_nonneg_Prim2SF c Hc Hfin) as [[sc ->] | [m [e ->]]];
    destruct (positive_Prim2SF d Hd) as [-> | [m' [e' ->]]]; cbn; eexists; reflexivity.
Qed.

Lemma shr_1_nonneg (mrs : shr_record) : (0 <= shr_m mrs)%Z -> (0 <= shr_m (shr_1 mrs))%Z.
Proof.
  destruct mrs as [m r s]. cbn. destruct m as [|p|p]; cbn; [lia| |lia].
  destruct p; cbn; lia.
Qed.

Lemma iter_shr_1_nonneg (p : positive) :
  forall mrs, (0 <= shr_m mrs)%Z -> (0 <= shr_m (iter_pos shr_1 p mrs))%Z.
Proof.
  induction p as [p IH|p IH|]; intros mrs H; cbn.
  - apply IH, IH, shr_1_nonneg, H.
  - apply IH, IH, H.
  - apply shr_1_nonneg, H.
Qed.

Lemma shr_fexp_nonneg (prec emax m e : Z) (l : location) :
  (0 <= m)%Z -> (0 <= shr_m (fst (shr_fexp prec emax m e l)))%Z.
Proof.
  intros Hm. unfold shr_fexp, shr.
  assert (H0 : (0 <= shr_m (shr_record_of_loc m l))%Z)
    by (destruct l as [|[| |]]; cbn; exact Hm).
  destruct (fexp prec emax (Zdigits2 m + e) - e)%Z; cbn [fst]; try exact H0.
  apply iter_shr_1_nonneg, H0.
Qed.

Lemma binary_round_aux_not_nan (prec emax : Z) (sx : bool) (mx ex : Z) (lx : location) :
  (0 <= mx)%Z -> binary_round_aux prec emax sx mx ex lx <> S754_nan.
Proof.
  intros Hm. unfold binary_round_aux.
  pose proof (shr_fexp_nonneg prec emax mx ex lx Hm) as H1.
  destruct (shr_fexp prec emax mx ex lx) as [mrs' e']. cbn [fst] in H1.
  assert (H2 : (0 <= round_nearest_even (shr_m mrs') (loc_of_shr_record mrs'))%Z).
  { unfold round_nearest_even.
    destruct (loc_of_shr_record mrs') as [|[| |]]; try lia.
    destruct (Z.even (shr_m mrs')); lia. }
  pose proof (shr_fexp_nonneg prec emax _ e' loc_Exact H2) as H3.
  destruct (shr_fexp prec emax _ e' loc_Exact) as [mrs'' e'']. cbn [fst] in H3.
  destruct (shr_m mrs'') as [|p|p]; [discriminate| |lia].
  destruct (e'' <=? emax - prec)%Z; discriminate.
Qed.

Lemma binary_normalize_not_nan (prec emax m e : Z) (szero : bool) :
  binary_normalize prec emax m e szero <> S754_nan.
Proof.
  unfold binary_normalize, binary_round.
  destruct m as [|p|p]; [discriminate| |];
    destruct (shl_align _ _ _) as [mz ez]; apply binary_round_aux_not_nan; lia.
Qed.

Lemma Prim2SF_one : Prim2SF 1 = S754_finite false 4503599627370496 (-52).
Proof. reflexivity. Qed.

Lemma one_plus_not_nan (e : float) : is_nan e = false -> is_nan (1 + e) = false.
Proof.
  intros He. destruct (is_nan (1 + e)) eqn:N; [|reflexivity].
  apply is_nan_Prim2SF in N. rewrite add_spec, Prim2SF_one in N.
  destruct (Prim2SF e) as [s|s| |s m x] eqn:Ee.
  - discriminate.
  - discriminate.
  - apply is_nan_Prim2SF in Ee. congruence.
  - unfold SF64add, SFadd in N. now apply binary_normalize_not_nan in N.
Qed.

Lemma one_minus_not_nan (e : float) : is_nan e = false -> is_nan (1 - e) = false.
Proof.
  intros He. destruct (is_nan (1 - e)) eqn:N; [|reflexivity].
  apply is_nan_Prim2SF in N. rewrite sub_spec, Prim2SF_one in N.
  destruct (Prim2SF e) as [s|s| |s m x] eqn:Ee.
  - discriminate.
  - discriminate.
  - apply is_nan_Prim2SF in Ee. congruence.
  - unfold SF64sub, SFsub in N. now apply binary_normalize_not_nan in N.
Qed.

Lemma one_plus_nan (e : float) : is_nan e = true -> is_nan (1 + e) = true.
Proof.
  intros He. apply is_nan_Prim2SF in He. apply is_nan_Prim2SF.
  rewrite add_spec, Prim2SF_one, He. reflexivity.
Qed.

Lemma one_minus_nan (e : float) : is_nan e = true -> is_nan (1 - e) = true.
Proof.
  intros He. apply is_nan_Prim2SF in He. apply is_nan_Prim2SF.
  rewrite sub_spec, Prim2SF_one, He. reflexivity.
Qed.

End Double.

(** ** When the loop stops *)

Lemma outside_band_negb_in_band (error r : float) :
  is_nan r = false -> is_nan error = false ->
  outside_band error r = negb (in_band error r).
Proof.
  intros Hr He. unfold outside_band, in_band.
  pose proof (Double.one_plus_not_nan error He) as Hhi.
  pose proof (Double.one_minus_not_nan error He) as Hlo.
  rewrite (Double.leb_negb_ltb (1 + error) r), (Double.leb_negb_ltb r (1 - error))
    by assumption.
  destruct (1 - error <? r)%float, (r <? 1 + error)%float; reflexivity.
Qed.

Lemma outside_band_nan (error r : float) :
  is_nan r = true \/ is_nan error = true -> outside_band error r = false.
Proof.
  intros [Hr | He]; unfold outside_band.
  - now rewrite (Double.leb_nan_r _ _ Hr), (Double.leb_nan_l _ _ Hr).
  - now rewrite (Double.leb_nan_l _ r (Double.one_plus_nan error He)),
                (Double.leb_nan_r r _ (Double.one_minus_nan error He)).
Qed.

Lemma at_Ok_entry (v : vec) (i : Z) (x : float) : at_ v i = Ok x -> x = entry v i.
Proof.
  unfold at_, entry. destruct (i <? 0); [discriminate|].
  destruct (nth_error v (Z.to_nat i)) eqn:E; [|discriminate].
  intros H. injection H as <-. symmetry. apply nth_error_nth, E.
Qed.

Lemma scan_ratios_spec (error : float) (st : store) :
  forall (n : nat) (i : Z) (c : bool),
    scan_ratios n i error st = Ok c ->
    (c = false <->
     forall m, i <= m < i + Z.of_nat n ->
               outside_band error (entry (mlem_ratio st) m) = false).
Proof.
  induction n as [|n IH]; intros i c E; cbn [scan_ratios] in E.
  - injection E as <-. split; [intros _ m Hm; lia | reflexivity].
  - bind_name E as r Er. apply at_Ok_entry in Er. subst r.
    destruct (outside_band error (entry (mlem_ratio st) i)) eqn:Ho.
    + injection E as <-. split; [discriminate|].
      intros H. rewrite H in Ho by lia. discriminate.
    + rewrite (IH (i + 1) c E). split; intros H m Hm.
      * destruct (Z.eq_dec m i) as [-> | Hne]; [exact Ho | apply H; lia].
      * apply H. lia.
Qed.

Lemma mlem_iteration_continue (error : float) (num_measurements num_bins : Z)
    (st st' : store) (c : bool) :
  mlem_iteration error num_measurements num_bins st = Ok (c, st') ->
  continue_mlem error num_measurements st' = Ok c.
Proof.
  unfold mlem_iteration. intros E.
  bind_name E as est Eest. bind_name E as sr Er. bind_name E as cor Ecor.
  bind_name E as su Eu. bind_name E as c' Ec. now injection E as <- <-.
Qed.

Lemma map_iteration_continue (beta error : float) (num_measurements num_bins : Z)
    (st st' : store) (c : bool) :
  map_iteration beta error num_measurements num_bins st = Ok (c, st') ->
  continue_mlem error num_measurements st' = Ok c.
Proof.
  unfold map_iteration. intros E.
  bind_name E as est Eest. bind_name E as sr Er. bind_name E as cor Ecor.
  bind_name E as se Ee. bind_name E as su Eu. bind_name E as c' Ec.
  now injection E as <- <-.
Qed.

Lemma continue_mlem_spec (error : float) (num_measurements : Z) (st : store) (c : bool) :
  continue_mlem error num_measurements st = Ok c ->
  (c = false <->
   forall m, 0 <= m < num_measurements ->
             outside_band error (entry (mlem_ratio st) m) = false).
Proof.
  unfold continue_mlem. intros E. rewrite (scan_ratios_spec _ _ _ _ _ E).
  split; intros H m Hm; apply H; lia.
Qed.

Lemma mlem_loop_stops_early (error : float) (num_measurements num_bins : Z) :
  forall (fuel : nat) (mlem_index k : Z) (st st' : store),
    mlem_loop fuel mlem_index error num_measurements num_bins st = Ok (k, st') ->
    k < mlem_index + Z.of_nat fuel ->
    forall m, 0 <= m < num_measurements ->
              outside_band error (entry (mlem_ratio st') m) = false.
Proof.
  induction fuel as [|fuel IH]; intros mlem_index k st st' E Hk; cbn [mlem_loop] in E.
  - injection E as <- _. lia.
  - bind_name E as a E0. destruct a as [[|] st1].
    + apply (IH _ _ _ _ E). lia.
    + injection E as _ <-.
      apply (continue_mlem_spec error num_measurements st1 false); [|reflexivity].
      eapply mlem_iteration_continue, E0.
Qed.

Lemma map_loop_stops_early (beta error : float) (num_measurements num_bins : Z) :
  forall (fuel : nat) (mlem_index k : Z) (st st' : store),
    map_loop fuel mlem_index beta error num_measurements num_bins st = Ok (k, st') ->
    k < mlem_index + Z.of_nat fuel ->
    forall m, 0 <= m < num_measurements ->
              outside_band error (entry (mlem_ratio st') m) = false.
Proof.
  induction fuel as [|fuel IH]; intros mlem_index k st st' E Hk; cbn [map_loop] in E.
  - injection E as <- _. lia.
  - bind_name E as a E0. destruct a as [[|] st1].
    + apply (IH _ _ _ _ E). lia.
    + injection E as _ <-.
      apply (continue_mlem_spec error num_measurements st1 false); [|reflexivity].
      eapply map_iteration_continue, E0.
Qed.

(** C2, as the code has it: a pass of the runMLEM or runMAP loop ends the
    loop exactly when no measurement m has ratio[m] >= 1+error or
    ratio[m] <= 1-error, and otherwise the loop goes on with the next
    index; so a run that returns a count below the cutoff leaves a ratio
    vector none of whose entries satisfies either comparison. For a ratio
    and an [error] that are not NaN this is 1-error < ratio[m] < 1+error
    with both inequalities strict (a ratio equal to a bound forces
    continuation); a NaN ratio, or a NaN [error], satisfies neither
    comparison and does not force continuation. *)
Theorem loop_stops_iff_no_ratio_outside
    (beta error : float) (num_measurements num_bins : Z) :
  (forall st c st' fuel mlem_index,
      mlem_iteration error num_measurements num_bins st = Ok (c, st') ->
      (c = false <->
       forall m, 0 <= m < num_measurements ->
                 outside_band error (entry (mlem_ratio st') m) = false) /\
      mlem_loop (S fuel) mlem_index error num_measurements num_bins st
      = if c then mlem_loop fuel (mlem_index + 1) error num_measurements num_bins st'
        else Ok (mlem_index, st')) /\
  (forall st c st' fuel mlem_index,
      map_iteration beta error num_measurements num_bins st = Ok (c, st') ->
      (c = false <->
       forall m, 0 <= m < num_measurements ->
                 outside_band error (entry (mlem_ratio st') m) = false) /\
      map_loop (S fuel) mlem_index beta error num_measurements num_bins st
      = if c then map_loop fuel (mlem_index + 1) beta error num_measurements num_bins st'
        else Ok (mlem_index, st')) /\
  (forall cutoff st k st',
      (runMLEM cutoff error num_measurements num_bins st = Ok (k, st') \/
       runMAP beta cutoff error num_measurements num_bins st = Ok (k, st')) ->
      k < cutoff ->
      forall m, 0 <= m < num_measurements ->
                outside_band error (entry (mlem_ratio st') m) = false) /\
  (forall r,
      is_nan r = false -> is_nan error = false ->
      (outside_band error r = false <-> in_band error r = true)) /\
  (forall r, is_nan r = true \/ is_nan error = true -> outside_band error r = false).
Proof.
  split; [|split; [|split; [|split]]].
  - intros st c st' fuel mlem_index E. split.
    + apply continue_mlem_spec. eapply mlem_iteration_continue, E.
    + cbn [mlem_loop]. rewrite E. reflexivity.
  - intros st c st' fuel mlem_index E. split.
    + apply continue_mlem_spec. eapply map_iteration_continue, E.
    + cbn [map_loop]. rewrite E. reflexivity.
  - intros cutoff st k st' [E | E] Hk.
    + apply (mlem_loop_stops_early _ _ _ _ _ _ _ _ E). lia.
    + apply (map_loop_stops_early _ _ _ _ _ _ _ _ _ E). lia.
  - intros r Hr He. rewrite outside_band_negb_in_band by assumption.
    destruct (in_band error r); cbn; split; congruence.
  - apply outside_band_nan.
Qed.

Lemma loop_stops_iff_no_ratio_outside_witness :
  exists st',
    runMLEM 50 0.0625 1 1 single_bin = Ok (1, st') /\
    outside_band 0.0625 (entry (mlem_ratio st') 0) = false /\
    in_band 0.0625 (entry (mlem_ratio st') 0) = true.
Proof.
  eexists. split; [vm_compute; reflexivity|].
  assert (Ho : outside_band 0.0625 (entry [1%float] 0) = false).
  { apply (proj1 (proj2 (proj2 (loop_stops_iff_no_ratio_outside 0 0.0625 1 1)))
             50 single_bin 1
             (mkStore [5%float] [5%float] [[1%float]] [1%float] [1%float] [])).
    - left. vm_compute. reflexivity.
    - lia.
    - lia. }
  split; [exact Ho|].
  apply (proj1 (proj2 (proj2 (proj2 (loop_stops_iff_no_ratio_outside 0 0.0625 1 1))))
           (entry [1%float] 0)); [reflexivity | reflexivity | exact Ho].
Defined.

(** The sentence of C2 fails on a NaN ratio: with a dead detector the first
    pass of runMLEM computes ratio[0] = 0/0, the run returns 0, below the
    cutoff 5, and ratio[0] is not strictly inside the band. *)
Lemma nan_ratio_ends_the_loop :
  exists st',
    runMLEM 5 0.0625 1 1 dead_detector = Ok (0, st') /\
    0 < 5 /\
    in_band 0.0625 (entry (mlem_ratio st') 0) = false.
Proof.
  eexists. split; [vm_compute; reflexivity|]. split; [lia | reflexivity].
Qed.

(** ** Zero entries of the spectrum *)

Lemma run_passes_invariant (next : store -> store) (continue : store -> bool)
    (P G : store -> Prop) :
  (forall s, P s -> G s -> P (next s)) ->
  forall (fuel : nat) (mlem_index : Z) (st : store),
    P st ->
    (forall s, In s (visited next continue fuel st) -> G s) ->
    P (snd (run_passes next continue fuel mlem_index st)) /\
    forall s, In s (visited next continue fuel st) -> P s.
Proof.
  intros Hstep. induction fuel as [|fuel IH]; intros mlem_index st Hst HG;
    cbn [run_passes visited] in *.
  - split; [exact Hst | intros s []].
  - assert (Hn : P (next st)) by (apply Hstep; [exact Hst | apply HG; now left]).
    destruct (continue st).
    + destruct (IH (mlem_index + 1) (next st) Hn) as [H1 H2].
      { intros s Hs. apply HG. now right. }
      split; [exact H1|]. intros s [<- | Hs]; [exact Hst | apply H2, Hs].
    + split; [exact Hn|]. intros s [<- | []]. exact Hst.
Qed.

(** C6, as the code has it: if spectrum[b] is zero when a pass of the
    runMLEM or runMAP loop starts, and in that pass and every later pass of
    the run correction[b] is finite and non-negative and the denominator of
    the update (normalization[b] in runMLEM, normalization[b] +
    energy_correction[b] in runMAP) is strictly positive, then spectrum[b]
    is zero when each later pass starts and in the store the run returns.
    The loop is taken at any index with any number of passes left: runMLEM
    and runMAP are the loop at index 0 with [cutoff] passes left. *)
Theorem zero_stays_zero
    (beta error : float) (num_measurements num_bins b : Z) (fuel : nat) (mlem_index : Z)
    (st : store) :
  well_formed num_measurements num_bins st ->
  0 <= b < num_bins ->
  is_zero (entry (spectrum st) b) = true ->
  ((forall s, In s (mlem_trace fuel error num_measurements num_bins st) ->
      finite_nonneg (correction num_measurements num_bins s b) = true /\
      (0 <? entry (normalized_response s) b)%float = true) ->
   exists k st',
     mlem_loop fuel mlem_index error num_measurements num_bins st = Ok (k, st') /\
     is_zero (entry (spectrum st') b) = true /\
     forall s, In s (mlem_trace fuel error num_measurements num_bins st) ->
               is_zero (entry (spectrum s) b) = true) /\
  (2 <= num_bins ->
   (forall s, In s (map_trace fuel beta error num_measurements num_bins st) ->
      finite_nonneg (correction num_measurements num_bins s b) = true /\
      (0 <? entry (normalized_response s) b + energy_term beta num_bins s b)%float = true) ->
   exists k st',
     map_loop fuel mlem_index beta error num_measurements num_bins st = Ok (k, st') /\
     is_zero (entry (spectrum st') b) = true /\
     forall s, In s (map_trace fuel beta error num_measurements num_bins st) ->
               is_zero (entry (spectrum s) b) = true).
Proof.
  intros Hwf Hb Hz. split.
  - intros HG. rewrite mlem_loop_ok by assumption.
    rewrite mlem_trace_ok in * by assumption. unfold mlem_run.
    set (next := mlem_next num_measurements num_bins) in *.
    set (continue := must_continue error num_measurements num_bins) in *.
    destruct (run_passes_invariant next continue
                (fun s => well_formed num_measurements num_bins s /\
                          is_zero (entry (spectrum s) b) = true)
                (fun s => finite_nonneg (correction num_measurements num_bins s b) = true /\
                          (0 <? entry (normalized_response s) b)%float = true))
      with (fuel := fuel) (mlem_index := mlem_index) (st := st) as [H1 H2].
    + intros s [Hs Hzs] [Hc Hd]. split; [apply mlem_next_wf, Hs|].
      unfold next. cbn [mlem_next spectrum]. rewrite entry_tabulate by assumption.
      unfold mlem_update. unfold finite_nonneg in Hc. apply andb_true_iff in Hc.
      apply Double.zero_lock_step; tauto.
    + split; assumption.
    + exact HG.
    + eexists _, _. split; [rewrite <- surjective_pairing; reflexivity|].
      split; [apply H1 | intros s Hs; apply (H2 s Hs)].
  - intros Hnb HG. rewrite map_loop_ok by assumption.
    rewrite map_trace_ok in * by assumption. unfold map_run.
    set (next := map_next beta num_measurements num_bins) in *.
    set (continue := must_continue error num_measurements num_bins) in *.
    destruct (run_passes_invariant next continue
                (fun s => well_formed num_measurements num_bins s /\
                          is_zero (entry (spectrum s) b) = true)
                (fun s => finite_nonneg (correction num_measurements num_bins s b) = true /\
                          (0 <? entry (normalized_response s) b
                                + energy_term beta num_bins s b)%float = true))
      with (fuel := fuel) (mlem_index := mlem_index) (st := st) as [H1 H2].
    + intros s [Hs Hzs] [Hc Hd]. split; [apply map_next_wf, Hs|].
      unfold next. cbn [map_next spectrum]. rewrite entry_tabulate by assumption.
      unfold map_update. unfold finite_nonneg in Hc. apply andb_true_iff in Hc.
      apply Double.zero_lock_step; tauto.
    + split; assumption.
    + exact HG.
    + eexists _, _. split; [rewrite <- surjective_pairing; reflexivity|].
      split; [apply H1 | intros s Hs; apply (H2 s Hs)].
Qed.

(** The sentence of C6 fails on a zero normalization entry: spectrum[0] is
    zero, every correction and normalization term is non-negative, and the
    first pass of runMLEM leaves 0 * 0 / 0, a NaN, in spectrum[0]. *)
Lemma zero_normalization_unlocks_zero :
  exists st',
    runMLEM 1 0.0625 1 2 zero_column = Ok (0, st') /\
    is_zero (entry (spectrum zero_column) 0) = true /\
    (forall b, 0 <= b < 2 ->
       (0 <=? correction 1 2 zero_column b)%float = true /\
       (0 <=? entry (normalized_response zero_column) b)%float = true) /\
    is_zero (entry (spectrum st') 0) = false /\
    is_nan (entry (spectrum st') 0) = true.
Proof.
  eexists. split; [vm_compute; reflexivity|]. split; [reflexivity|].
  split; [|split; reflexivity].
  intros b Hb. assert (Hcases : b = 0 \/ b = 1) by lia.
  destruct Hcases as [-> | ->]; split; reflexivity.
Qed.

Lemma zero_stays_zero_witness :
  exists k st',
    mlem_loop 2 0 0.0625 1 2 zero_entry = Ok (k, st') /\
    is_zero (entry (spectrum st') 0) = true.
Proof.
  assert (Hwf : well_formed 1 2 zero_entry)
    by (constructor; try reflexivity; repeat constructor).
  destruct (proj1 (zero_stays_zero 0 0.0625 1 2 0 2 0 zero_entry Hwf
                     (conj (Z.le_refl 0) eq_refl) eq_refl))
    as [k [st' [E [Hz _]]]].
  - intros s Hs. vm_compute in Hs.
    destruct Hs as [<- | [<- | []]]; split; reflexivity.
  - exists k, st'. split; assumption.
Defined.

(** ** runMAP with beta = 0 *)

Lemma ratio_agree (num_bins : Z) (s1 s2 : store) (m : Z) :
  agree s1 s2 -> ratio num_bins s1 m = ratio num_bins s2 m.
Proof.
  intros (H1 & H2 & H3 & _). unfold ratio, estimated. now rewrite H1, H2, H3.
Qed.

Lemma correction_agree (num_measurements num_bins : Z) (s1 s2 : store) (b : Z) :
  agree s1 s2 ->
  correction num_measurements num_bins s1 b = correction num_measurements num_bins s2 b.
Proof.
  intros H. unfold correction. apply sigma_ext. intros m _.
  rewrite (ratio_agree num_bins s1 s2 m H). destruct H as (_ & _ & -> & _). reflexivity.
Qed.

Lemma must_continue_agree (error : float) (num_measurements num_bins : Z) (s1 s2 : store) :
  agree s1 s2 ->
  must_continue error num_measurements num_bins s1
  = must_continue error num_measurements num_bins s2.
Proof.
  intros H. unfold must_continue. f_equal. apply tabulate_ext. intros m _.
  apply ratio_agree, H.
Qed.

Lemma next_agree (num_measurements num_bins : Z) (s1 s2 : store) :
  agree s1 s2 -> energy_neutral num_bins s1 ->
  agree (mlem_next num_measurements num_bins s1) (map_next 0 num_measurements num_bins s2).
Proof.
  intros H Hneutral. pose proof H as (H1 & H2 & H3 & H4 & H5).
  unfold agree. cbn [mlem_next map_next measurements spectrum nns_response
                     normalized_response mlem_ratio].
  repeat split; try assumption.
  - apply tabulate_ext. intros b Hb. unfold mlem_update, map_update.
    rewrite <- (correction_agree num_measurements num_bins s1 s2 b H).
    unfold energy_term, roughness. rewrite <- H2, <- H4.
    fold (roughness num_bins s1 b). fold (energy_term 0 num_bins s1 b).
    now rewrite (Hneutral b Hb).
  - apply tabulate_ext. intros m _. apply ratio_agree, H.
Qed.

Lemma run_passes_agree (error : float) (num_measurements num_bins : Z) :
  forall (fuel : nat) (mlem_index : Z) (s1 s2 : store),
    agree s1 s2 ->
    (forall s, In s (visited (mlem_next num_measurements num_bins)
                             (must_continue error num_measurements num_bins) fuel s1) ->
               energy_neutral num_bins s) ->
    fst (mlem_run fuel mlem_index error num_measurements num_bins s1)
    = fst (map_run fuel mlem_index 0 error num_measurements num_bins s2) /\
    agree (snd (mlem_run fuel mlem_index error num_measurements num_bins s1))
          (snd (map_run fuel mlem_index 0 error num_measurements num_bins s2)).
Proof.
  unfold mlem_run, map_run.
  induction fuel as [|fuel IH]; intros mlem_index s1 s2 H Hall;
    cbn [run_passes visited] in *.
  - split; [reflexivity | exact H].
  - rewrite <- (must_continue_agree error num_measurements num_bins s1 s2 H).
    assert (Hn : agree (mlem_next num_measurements num_bins s1)
                       (map_next 0 num_measurements num_bins s2))
      by (apply next_agree; [exact H | apply Hall; now left]).
    destruct (must_continue error num_measurements num_bins s1).
    + apply IH; [exact Hn|]. intros s Hs. apply Hall. now right.
    + split; [reflexivity | exact Hn].
Qed.

(** Where the energy-correction terms computed with beta = 0 are neutral in
    every pass of the runMLEM run, runMAP with beta = 0 follows runMLEM. *)
Lemma map_with_beta_zero_when_neutral
    (cutoff : Z) (error : float) (num_measurements num_bins : Z) (st : store) :
  well_formed num_measurements num_bins st ->
  2 <= num_bins ->
  (forall s, In s (mlem_trace (Z.to_nat cutoff) error num_measurements num_bins st) ->
             energy_neutral num_bins s) ->
  exists k s1 s2,
    runMLEM cutoff error num_measurements num_bins st = Ok (k, s1) /\
    runMAP 0 cutoff error num_measurements num_bins st = Ok (k, s2) /\
    spectrum s1 = spectrum s2 /\
    mlem_ratio s1 = mlem_ratio s2.
Proof.
  intros Hwf Hnb Hall. unfold runMLEM, runMAP.
  rewrite mlem_loop_ok, map_loop_ok by assumption.
  rewrite mlem_trace_ok in Hall by assumption.
  destruct (run_passes_agree error num_measurements num_bins (Z.to_nat cutoff) 0 st st)
    as [Hk Hs]; [repeat split | exact Hall |].
  destruct (mlem_run (Z.to_nat cutoff) 0 error num_measurements num_bins st) as [k s1].
  destruct (map_run (Z.to_nat cutoff) 0 0 error num_measurements num_bins st) as [k' s2].
  cbn [fst snd] in Hk, Hs. subst k'. exists k, s1, s2.
  destruct Hs as (_ & H2 & _ & _ & H5). repeat split; assumption.
Qed.

Lemma add_zero_neutral (n e : float) :
  is_zero e = true -> n <> neg_zero -> (n + e)%float = n.
Proof.
  intros He Hn. apply Prim2SF_inj. rewrite add_spec.
  apply Double.is_zero_Prim2SF in He. destruct He as [s ->].
  destruct (Prim2SF n) as [sn|sn| |sn mn en] eqn:En; try reflexivity.
  destruct sn, s; try reflexivity.
  exfalso. apply Hn. apply Prim2SF_inj. rewrite En. reflexivity.
Qed.

Lemma mul_zero_finite (p : float) : is_finite p = true -> is_zero (0 * p)%float = true.
Proof.
  unfold is_finite. intros H. apply negb_true_iff, orb_false_iff in H.
  destruct H as [Hnan Hinf].
  apply Double.is_zero_Prim2SF. rewrite mul_spec.
  change (Prim2SF 0) with (S754_zero false).
  destruct (Prim2SF p) as [s|s| |s m e] eqn:Ep; cbn; try (eexists; reflexivity).
  - unfold is_infinity in Hinf. rewrite eqb_spec, abs_spec, Ep in Hinf. discriminate.
  - assert (N : is_nan p = true) by (apply Double.is_nan_Prim2SF, Ep). congruence.
Qed.

(** With beta = 0 the energy-correction terms are neutral as soon as the
    squared differences are finite and no normalization entry is the
    negative zero. *)
Lemma energy_neutral_when_finite (num_bins : Z) (st : store) :
  (forall b, 0 <= b < num_bins ->
     is_finite (roughness num_bins st b) = true /\
     entry (normalized_response st) b <> neg_zero) ->
  energy_neutral num_bins st.
Proof.
  intros H b Hb. destruct (H b Hb) as [Hfin Hn].
  apply add_zero_neutral; [|exact Hn].
  unfold energy_term. apply mul_zero_finite, Hfin.
Qed.

Lemma mlem_trace_normalized (error : float) (num_measurements num_bins : Z) :
  forall (fuel : nat) (st : store),
    well_formed num_measurements num_bins st ->
    forall s, In s (mlem_trace fuel error num_measurements num_bins st) ->
              normalized_response s = normalized_response st.
Proof.
  intros fuel st Hwf s. rewrite mlem_trace_ok by assumption.
  apply (visited_invariant _ _ (fun s => normalized_response s = normalized_response st)).
  - intros s0 H. exact H.
  - reflexivity.
Qed.

(** C5, as the code has it: on a store whose dimensions agree, with at
    least two bins, no normalization entry equal to -0.0, and such that in
    every pass of the runMLEM run the squared differences of each bin to
    its neighbours (their sum, for a bin with two neighbours) are finite,
    runMAP with beta = 0 returns the same iteration count, the same final
    spectrum and the same final ratio vector as runMLEM. *)
Theorem map_with_beta_zero_is_mlem
    (cutoff : Z) (error : float) (num_measurements num_bins : Z) (st : store) :
  well_formed num_measurements num_bins st ->
  2 <= num_bins ->
  (forall b, 0 <= b < num_bins -> entry (normalized_response st) b <> neg_zero) ->
  (forall s, In s (mlem_trace (Z.to_nat cutoff) error num_measurements num_bins st) ->
     forall b, 0 <= b < num_bins -> is_finite (roughness num_bins s b) = true) ->
  exists k s1 s2,
    runMLEM cutoff error num_measurements num_bins st = Ok (k, s1) /\
    runMAP 0 cutoff error num_measurements num_bins st = Ok (k, s2) /\
    spectrum s1 = spectrum s2 /\
    mlem_ratio s1 = mlem_ratio s2.
Proof.
  intros Hwf Hnb Hnorm Hfin.
  apply map_with_beta_zero_when_neutral; try assumption.
  intros s Hs. apply energy_neutral_when_finite. intros b Hb.
  split; [exact (Hfin s Hs b Hb)|].
  rewrite (mlem_trace_normalized _ _ _ _ st Hwf s Hs). exact (Hnorm b Hb).
Qed.

Lemma map_with_beta_zero_is_mlem_witness :
  exists k s1 s2,
    runMLEM 3 0.0625 2 3 three_bins = Ok (k, s1) /\
    runMAP 0 3 0.0625 2 3 three_bins = Ok (k, s2) /\
    spectrum s1 = spectrum s2 /\
    mlem_ratio s1 = mlem_ratio s2.
Proof.
  apply (map_with_beta_zero_is_mlem 3 0.0625 2 3 three_bins three_bins_wf); [lia| |].
  - intros b Hb H. assert (Hcases : b = 0 \/ b = 1 \/ b = 2) by lia.
    apply FloatAxioms.Leibniz.eqb_spec in H.
    destruct Hcases as [-> | [-> | ->]]; vm_compute in H; discriminate.
  - intros s Hs. vm_compute in Hs.
    destruct Hs as [<- | [<- | [<- | []]]]; intros b Hb;
      assert (Hcases : b = 0 \/ b = 1 \/ b = 2) by lia;
      destruct Hcases as [-> | [-> | ->]]; vm_compute; reflexivity.
Defined.

(** The sentence of C5 fails when a squared difference overflows: for the
    spectrum [2^600, 1] the term 0 * (2^600 - 1)^2 is 0 * infinity, a NaN,
    and runMAP with beta = 0 returns a spectrum of NaNs where runMLEM
    returns [1, 2^-600]. *)
Lemma overflow_separates_map_from_mlem :
  exists k1 s1 k2 s2,
    runMLEM 1 0.0625 1 2 steep = Ok (k1, s1) /\
    runMAP 0 1 0.0625 1 2 steep = Ok (k2, s2) /\
    spectrum s1 = [1; 0x1p-600]%float /\
    is_nan (entry (spectrum s2) 0) = true /\
    spectrum s1 <> spectrum s2.
Proof.
  eexists _, _, _, _. split; [vm_compute; reflexivity|].
  split; [vm_compute; reflexivity|].
  split; [reflexivity|]. split; [reflexivity|].
  intros H. apply (f_equal (fun v => is_nan (entry v 0))) in H.
  vm_compute in H. discriminate.
Qed.

(** With normalization[0] = -0.0 the denominator of runMAP with beta = 0 is
    -0.0 + 0.0 = +0.0: spectrum[0] becomes +infinity where runMLEM leaves
    -infinity. *)
Example negative_zero_separates_map_from_mlem :
  exists k1 s1 k2 s2,
    runMLEM 1 0.0625 1 2 negative_zero_normalization = Ok (k1, s1) /\
    runMAP 0 1 0.0625 1 2 negative_zero_normalization = Ok (k2, s2) /\
    spectrum s1 = [neg_infinity; 0.5%float] /\
    spectrum s2 = [infinity; 0.5%float].
Proof.
  eexists _, _, _, _. split; [vm_compute; reflexivity|].
  split; [vm_compute; reflexivity|]. split; reflexivity.
Qed.

(** ** runMAP with fewer than two bins *)

Lemma compute_energy_correction_needs_two_bins
    (beta : float) (num_bins : Z) (st st' : store) :
  num_bins < 2 -> compute_energy_correction beta num_bins st <> Ok st'.
Proof.
  intros Hnb E. unfold compute_energy_correction in E.
  bind_name E as s0 E0. bind_name E as s1 E1. bind_name E as st1 Eloop.
  bind_name E as l El. bind_name E as k Ek.
  rewrite at_out in Ek by lia. discriminate.
Qed.

(** With a positive cutoff and fewer than two bins, runMAP reads the
    spectrum outside its bounds whatever the store is. *)
Lemma runMAP_needs_two_bins
    (beta : float) (cutoff : Z) (error : float) (num_measurements num_bins : Z)
    (st : store) (r : Z * store) :
  0 < cutoff -> num_bins < 2 ->
  runMAP beta cutoff error num_measurements num_bins st <> Ok r.
Proof.
  intros Hc Hnb E. unfold runMAP in E.
  destruct (Z.to_nat cutoff) as [|fuel] eqn:Hf; [lia|].
  cbn [map_loop] in E. bind_name E as a Ea. clear E.
  unfold map_iteration in Ea.
  bind_name Ea as est Eest. bind_name Ea as sr Er. bind_name Ea as cor Ecor.
  bind_name Ea as se Ee.
  exact (compute_energy_correction_needs_two_bins beta num_bins sr se Hnb Ee).
Qed.

(** C8 on the code: with one bin, one measurement and dimensions that
    agree, the first pass of runMAP evaluates spectrum[1] on a spectrum of
    size 1, which is outside the vector; runMLEM on the same store
    returns. *)
Theorem runMAP_one_bin_out_of_range :
  runMAP 0.5 1 0.0625 1 1 single_bin = OutOfRange 1 1 /\
  runMLEM 1 0.0625 1 1 single_bin
  = Ok (1, mkStore [5%float] [5%float] [[1%float]] [1%float] [5%float] []).
Proof. split; reflexivity. Qed.

(** ** The test cases of the specification, run on the embedding *)

Example exact_fit_returns_0 :
  runMLEM 50 0.0625 1 2 exact_fit
  = Ok (0, mkStore [3%float] [1; 2]%float [[1; 1]]%float [1; 1]%float [1%float] []).
Proof. reflexivity. Qed.

Example boundary_ratio_continues :
  exists st',
    mlem_iteration 0.0625 1 1 on_the_boundary = Ok (true, st') /\
    mlem_ratio st' = [(1 + 0.0625)%float].
Proof. eexists. split; reflexivity. Qed.

Example single_bin_converges :
  runMLEM 50 0.0625 1 1 single_bin
  = Ok (1, mkStore [5%float] [5%float] [[1%float]] [1%float] [1%float] []).
Proof. reflexivity. Qed.

Example inconsistent_reaches_cutoff :
  exists st', runMLEM 20 0.0625 2 1 inconsistent = Ok (20, st') /\
              runMAP 0.5 20 0.0625 2 1 inconsistent = OutOfRange 1 1.
Proof. eexists. split; [vm_compute; reflexivity | reflexivity]. Qed.

(** * The aggregate statistics *)

Example decimal_literals :
  (0.93 = 93 / 100 /\ 2353374.529 = 2353374529 / 1000 /\ 5.4 = 54 / 10 /\
   1.26 = 126 / 100 /\ 1e-9 = 1 / 1000000000 /\ M_PI = 0x1.921fb54442d18p+1)%float.
Proof. repeat split. Qed.

(** ** Signs of binary64 sums, products, quotients and square roots *)

Module DoubleArith.

Local Open Scope float_scope.

Lemma leb_zero_iff (x : float) : (0 <=? x) = true <-> at_least_zero (Prim2SF x).
Proof.
  rewrite FloatAxioms.leb_spec. change (Prim2SF 0) with (S754_zero false).
  destruct (Prim2SF x) as [s|s| |s m e]; cbn; try destruct s; intuition discriminate.
Qed.

Lemma plus_signed_at_least_zero (x : spec_float) : plus_signed x -> at_least_zero x.
Proof. destruct x; cbn; auto. Qed.

(** Rounding a non-negative mantissa keeps the sign it is given. *)
Lemma binary_round_aux_sign (prec emax : Z) (sx : bool) (mx ex : Z) (lx : location) :
  (0 <= mx)%Z ->
  match binary_round_aux prec emax sx mx ex lx with
  | S754_zero s | S754_infinity s | S754_finite s _ _ => s = sx
  | S754_nan => False
  end.
Proof.
  intros Hm. unfold binary_round_aux.
  pose proof (Double.shr_fexp_nonneg prec emax mx ex lx Hm) as H1.
  destruct (shr_fexp prec emax mx ex lx) as [mrs' e']. cbn [fst] in H1.
  assert (H2 : (0 <= round_nearest_even (shr_m mrs') (loc_of_shr_record mrs'))%Z).
  { unfold round_nearest_even.
    destruct (loc_of_shr_record mrs') as [|[| |]]; try lia.
    destruct (Z.even (shr_m mrs')); lia. }
  pose proof (Double.shr_fexp_nonneg prec emax _ e' loc_Exact H2) as H3.
  destruct (shr_fexp prec emax _ e' loc_Exact) as [mrs'' e'']. cbn [fst] in H3.
  destruct (shr_m mrs'') as [|p|p]; [reflexivity| |lia].
  destruct (e'' <=? emax - prec)%Z; reflexivity.
Qed.

Lemma binary_round_sign (prec emax : Z) (sx : bool) (mx : positive) (ex : Z) :
  match binary_round prec emax sx mx ex with
  | S754_zero s | S754_infinity s | S754_finite s _ _ => s = sx
  | S754_nan => False
  end.
Proof.
  unfold binary_round. destruct (shl_align _ _ _) as [mz ez].
  apply binary_round_aux_sign. lia.
Qed.

(** Adding a number that is at least zero to a plus-signed number gives a
    plus-signed number. *)
Lemma SFadd_plus_signed (prec emax : Z) (a y : spec_float) :
  plus_signed a -> at_least_zero y -> plus_signed (SFadd prec emax a y).
Proof.
  destruct a as [sa|sa| |sa ma ea], y as [sy|sy| |sy my ey]; cbn;
    intros Ha Hy; subst; try contradiction; try reflexivity.
  - destruct sy; reflexivity.
  - unfold binary_normalize.
    destruct (shl_align ma ea (Z.min ea ey)) as [m1 e1].
    destruct (shl_align my ey (Z.min ea ey)) as [m2 e2]. cbn.
    pose proof (binary_round_sign prec emax false (m1 + m2) (Z.min ea ey)) as H.
    destruct (binary_round prec emax false (m1 + m2) (Z.min ea ey)); exact H.
Qed.

Lemma add_plus_signed (a y : float) :
  plus_signed (Prim2SF a) -> (0 <=? y) = true -> plus_signed (Prim2SF (a + y)).
Proof.
  intros Ha Hy. rewrite add_spec. apply SFadd_plus_signed; [exact Ha|].
  apply leb_zero_iff, Hy.
Qed.

Lemma plus_signed_zero : plus_signed (Prim2SF 0).
Proof. reflexivity. Qed.

Lemma plus_signed_leb (x : float) : plus_signed (Prim2SF x) -> (0 <=? x) = true.
Proof. intros H. apply leb_zero_iff, plus_signed_at_least_zero, H. Qed.

Lemma plus_signed_not_neg_zero (x : float) : plus_signed (Prim2SF x) -> x <> neg_zero.
Proof. intros H E. subst x. cbn in H. discriminate. Qed.

Lemma sqrtrem_fst_nonneg (n : Z) : (0 <= fst (Z.sqrtrem n))%Z.
Proof.
  destruct n as [|p|p]; cbn; try lia.
  destruct (Pos.sqrtrem p) as [s [|r|]]; cbn; lia.
Qed.

(** A square root is a NaN or at least zero. *)
Lemma sqrt_nan_or_at_least_zero (x : float) :
  is_nan (sqrt x) = true \/ (0 <=? sqrt x) = true.
Proof.
  rewrite Double.is_nan_Prim2SF, leb_zero_iff, sqrt_spec.
  destruct (Prim2SF x) as [s|s| |s m e]; cbn.
  - now right.
  - destruct s; [now left | now right].
  - now left.
  - destruct s; [now left|].
    destruct (SFsqrt_core_binary prec emax (Z.pos m) e) as [[mz ez] lz] eqn:Ecore.
    assert (Hmz : (0 <= mz)%Z).
    { unfold SFsqrt_core_binary in Ecore.
      match type of Ecore with
      | context [Z.sqrtrem ?n] => pose proof (sqrtrem_fst_nonneg n) as Hq;
                                  destruct (Z.sqrtrem n) as [q r]
      end.
      injection Ecore as <- _ _. exact Hq. }
    pose proof (binary_round_aux_sign prec emax false mz ez lz Hmz) as H.
    destruct (binary_round_aux prec emax false mz ez lz); try contradiction; subst; now right.
Qed.

(** ** Integers converted to binary64 *)

Lemma binary_round_aux_exact (sx : bool) (mz : positive) (ez : Z) :
  fexp prec emax (Z.pos (digits2_pos mz) + ez) = ez ->
  (ez <= emax - prec)%Z ->
  binary_round_aux prec emax sx (Z.pos mz) ez loc_Exact = S754_finite sx mz ez.
Proof.
  intros Hf He. unfold binary_round_aux, shr_fexp. cbn [Zdigits2].
  rewrite Hf, Z.sub_diag. cbn [shr shr_record_of_loc shr_m loc_of_shr_record
                                 round_nearest_even Zdigits2].
  rewrite Hf, Z.sub_diag. cbn [shr shr_record_of_loc shr_m].
  apply Z.leb_le in He. now rewrite He.
Qed.

Lemma digits2_pos_iter_xO (p k : positive) :
  digits2_pos (Pos.iter xO p k) = (digits2_pos p + k)%positive.
Proof.
  induction k as [|k IH] using Pos.peano_ind.
  - cbn. now rewrite Pos.add_1_r.
  - rewrite Pos.iter_succ. cbn [digits2_pos]. rewrite IH. lia.
Qed.

Lemma digits2_pos_lower (p : positive) : (2 ^ (Z.pos (digits2_pos p) - 1) <= Z.pos p)%Z.
Proof.
  induction p as [p IH|p IH|]; cbn [digits2_pos]; [| |cbn; lia].
  - replace (Z.pos (Pos.succ (digits2_pos p)) - 1)%Z
      with (Z.succ (Z.pos (digits2_pos p) - 1)) by lia.
    rewrite Z.pow_succ_r by lia. lia.
  - replace (Z.pos (Pos.succ (digits2_pos p)) - 1)%Z
      with (Z.succ (Z.pos (digits2_pos p) - 1)) by lia.
    rewrite Z.pow_succ_r by lia. lia.
Qed.

Lemma digits2_pos_small (p : positive) :
  (Z.pos p < 2 ^ 53)%Z -> (Z.pos (digits2_pos p) <= 53)%Z.
Proof.
  intros Hp. pose proof (digits2_pos_lower p) as Hl.
  assert (H : (2 ^ (Z.pos (digits2_pos p) - 1) < 2 ^ 53)%Z) by lia.
  apply Z.pow_lt_mono_r_iff in H; lia.
Qed.

(** A positive integer below 2^53 rounds to a positive finite number. *)
Lemma binary_round_small (sx : bool) (p : positive) :
  (Z.pos p < 2 ^ 53)%Z ->
  exists m e, binary_round prec emax sx p 0 = S754_finite sx m e.
Proof.
  intros Hp. pose proof (digits2_pos_small p Hp) as Hd.
  unfold binary_round.
  assert (Hf : fexp prec emax (Z.pos (digits2_pos p) + 0) = (Z.pos (digits2_pos p) - 53)%Z).
  { unfold fexp, emin, prec, emax. lia. }
  rewrite Hf. unfold shl_align.
  destruct (Z.pos (digits2_pos p) - 53 - 0)%Z as [|k|k] eqn:Ek; [|lia|].
  - exists p, 0%Z. apply binary_round_aux_exact.
    + unfold fexp, emin, prec, emax. lia.
    + unfold prec, emax. lia.
  - exists (Pos.iter xO p k), (Z.pos (digits2_pos p) - 53)%Z.
    apply binary_round_aux_exact.
    + rewrite digits2_pos_iter_xO. unfold fexp, emin, prec, emax. lia.
    + unfold prec, emax. lia.
Qed.

Lemma to_Z_of_Z_small (n : Z) :
  (0 <= n < 2 ^ 53)%Z -> Uint63.to_Z (Uint63.of_Z n) = n.
Proof.
  intros Hn. rewrite Uint63.of_Z_spec. apply Z.mod_small.
  change Uint63.wB with (2 ^ 63)%Z. lia.
Qed.

(** An [int] converts to zero, or to a finite number of its sign. *)
Lemma double_of_int_spec (n : Z) :
  (- 2 ^ 53 < n < 2 ^ 53)%Z ->
  (n = 0%Z /\ Prim2SF (double_of_int n) = S754_zero false) \/
  (n <> 0%Z /\ exists m e, Prim2SF (double_of_int n) = S754_finite (n <? 0)%Z m e).
Proof.
  intros Hn. unfold double_of_int. destruct (n <? 0)%Z eqn:Hneg.
  - apply Z.ltb_lt in Hneg. right. split; [lia|].
    rewrite opp_spec, of_uint63_spec, to_Z_of_Z_small by lia.
    destruct n as [|p|p]; try lia. cbn [Z.opp binary_normalize].
    destruct (binary_round_small false p) as [m [e ->]]; [lia|].
    exists m, e. reflexivity.
  - apply Z.ltb_ge in Hneg. rewrite of_uint63_spec, to_Z_of_Z_small by lia.
    destruct n as [|p|p]; try lia.
    + left. split; reflexivity.
    + right. split; [lia|]. cbn [binary_normalize].
      destruct (binary_round_small false p) as [m [e ->]]; [lia|].
      exists m, e. reflexivity.
Qed.

(** ** Products and quotients of plus-signed numbers *)

Lemma finite_positive_iff (c : float) :
  finite_above_zero c = true <-> finite_positive (Prim2SF c).
Proof.
  unfold finite_above_zero. rewrite andb_true_iff, !ltb_spec.
  change (Prim2SF 0) with (S754_zero false).
  change (Prim2SF infinity) with (S754_infinity false).
  unfold finite_positive.
  destruct (Prim2SF c) as [s|s| |s m e]; cbn.
  - split; [intros [H _]; discriminate | intros [m [e H]]; discriminate].
  - split; [destruct s; intros [H1 H2]; discriminate | intros [m [e H]]; discriminate].
  - split; [intros [H _]; discriminate | intros [m [e H]]; discriminate].
  - destruct s; split.
    + intros [H _]; discriminate.
    + intros [m' [e' H]]; discriminate.
    + intros _. now exists m, e.
    + intros _. split; reflexivity.
Qed.

Lemma SFmul_plus_signed (a c : spec_float) :
  plus_signed a -> finite_positive c -> plus_signed (SFmul prec emax a c).
Proof.
  intros Ha [m [e ->]].
  destruct a as [sa|sa| |sa ma ea]; cbn in *; subst; try contradiction; try reflexivity.
  cbn [xorb].
  pose proof (binary_round_aux_sign prec emax false (Z.pos (ma * m)) (ea + e) loc_Exact
                ltac:(lia)) as H.
  destruct (binary_round_aux prec emax false (Z.pos (ma * m)) (ea + e) loc_Exact); exact H.
Qed.

Lemma div_eucl_fst_nonneg (a b : Z) : (0 <= a)%Z -> (0 < b)%Z -> (0 <= fst (Z.div_eucl a b))%Z.
Proof.
  intros Ha Hb. pose proof (Z.div_pos a b Ha Hb) as H.
  unfold Z.div in H. destruct (Z.div_eucl a b). exact H.
Qed.

Lemma SFdiv_plus_signed (a c : spec_float) :
  plus_signed a -> finite_positive c -> plus_signed (SFdiv prec emax a c).
Proof.
  intros Ha [m [e ->]].
  destruct a as [sa|sa| |sa ma ea]; cbn [plus_signed] in *; subst; try contradiction;
    try reflexivity.
  unfold SFdiv. cbn [xorb].
  destruct (SFdiv_core_binary prec emax (Z.pos ma) ea (Z.pos m) e) as [[mz ez] lz] eqn:Ecore.
  assert (Hmz : (0 <= mz)%Z).
  { unfold SFdiv_core_binary in Ecore.
    match type of Ecore with
    | context [Z.div_eucl ?n ?d] =>
        assert (Hq : (0 <= fst (Z.div_eucl n d))%Z);
        [apply div_eucl_fst_nonneg; [|lia] | destruct (Z.div_eucl n d) as [q r]]
    end.
    - match goal with
      | |- (0 <= match ?s with _ => _ end)%Z => destruct s; try lia
      end.
      apply Z.shiftl_nonneg. lia.
    - injection Ecore as <- _ _. exact Hq. }
  pose proof (binary_round_aux_sign prec emax false mz ez lz Hmz) as H.
  destruct (binary_round_aux prec emax false mz ez lz); exact H.
Qed.

Lemma mul_plus_signed (a c : float) :
  plus_signed (Prim2SF a) -> finite_above_zero c = true ->
  plus_signed (Prim2SF (a * c)).
Proof.
  intros Ha Hc. rewrite mul_spec. apply SFmul_plus_signed; [exact Ha|].
  apply finite_positive_iff, Hc.
Qed.

Lemma div_plus_signed (a c : float) :
  plus_signed (Prim2SF a) -> finite_above_zero c = true ->
  plus_signed (Prim2SF (a / c)).
Proof.
  intros Ha Hc. rewrite div_spec. apply SFdiv_plus_signed; [exact Ha|].
  apply finite_positive_iff, Hc.
Qed.

(** The product of two finite numbers that are at least zero is at least
    zero. *)
Lemma mul_at_least_zero (x y : float) :
  finite_at_least_zero x = true -> finite_at_least_zero y = true ->
  (0 <=? x * y) = true.
Proof.
  unfold finite_at_least_zero.
  rewrite !andb_true_iff, !FloatAxioms.leb_spec, !ltb_spec, mul_spec.
  change (Prim2SF 0) with (S754_zero false).
  change (Prim2SF infinity) with (S754_infinity false).
  destruct (Prim2SF x) as [sx|sx| |sx mx ex], (Prim2SF y) as [sy|sy| |sy my ey]; cbn;
    intros [H1 H2] [H3 H4]; try discriminate; try reflexivity;
    try (destruct sx; discriminate); try (destruct sy; discriminate).
  destruct sx, sy; try discriminate. cbn [xorb].
  pose proof (binary_round_aux_sign prec emax false (Z.pos (mx * my)) (ex + ey) loc_Exact
                ltac:(lia)) as H.
  destruct (binary_round_aux prec emax false (Z.pos (mx * my)) (ex + ey) loc_Exact);
    try contradiction; subst; reflexivity.
Qed.

End DoubleArith.
(** ** Loops that leave a vector *)

(** A loop whose passes succeed up to pass [j], which reads out of range,
    reports that read. *)
Lemma for_loop_fails {St : Type} (body : Z -> St -> result St) (index sz : Z) :
  forall (j : nat) (P : nat -> St -> Prop) (n : nat) (lo : Z) (s0 : St),
    (j < n)%nat ->
    P O s0 ->
    (forall (k : nat) (s : St), (k < j)%nat -> P k s ->
       exists s', body (lo + Z.of_nat k) s = Ok s' /\ P (S k) s') ->
    (forall s, P j s -> body (lo + Z.of_nat j) s = OutOfRange index sz) ->
    for_loop n lo body s0 = OutOfRange index sz.
Proof.
  induction j as [|j IH]; intros P n lo s0 Hj H0 Hstep Hfail;
    (destruct n as [|n]; [lia|]); cbn [for_loop].
  - rewrite <- (Z.add_0_r lo) at 1. change 0 with (Z.of_nat 0).
    rewrite (Hfail s0 H0). reflexivity.
  - destruct (Hstep O s0) as [s1 [E1 P1]]; [lia | exact H0 |].
    rewrite Z.add_0_r in E1. rewrite E1. cbn [bind].
    apply (IH (fun k s => P (S k) s)); [lia | exact P1 | |].
    + intros k s Hk HP. destruct (Hstep (S k) s) as [s' [E' P']]; [lia | exact HP |].
      exists s'. split; [|exact P']. rewrite <- E'. f_equal. lia.
    + intros s HP. rewrite <- (Hfail s HP). f_equal. lia.
Qed.

Lemma sigma_to_nat (n : Z) (f : Z -> float) : sigma n f = sigma (Z.of_nat (Z.to_nat n)) f.
Proof. unfold sigma. now rewrite Nat2Z.id. Qed.

(** A sum of numbers that are at least zero is plus-signed. *)
Lemma sigma_plus_signed (n : Z) (f : Z -> float) :
  (forall k, 0 <= k < n -> (0 <=? f k)%float = true) ->
  plus_signed (Prim2SF (sigma n f)).
Proof.
  intros H. rewrite sigma_to_nat.
  assert (Hn : (Z.to_nat n <= Z.to_nat n)%nat) by lia. revert Hn.
  generalize (Z.to_nat n) at 1 3. intros k.
  induction k as [|k IH]; intros Hk; [reflexivity|].
  rewrite sigma_succ. apply DoubleArith.add_plus_signed; [apply IH; lia|].
  apply H. lia.
Qed.

(** ** calculateTotalFlux and calculateTotalCharge *)

Lemma calculateTotalFlux_ok (num_bins : Z) (spectrum : vec) :
  num_bins <= size spectrum ->
  calculateTotalFlux num_bins spectrum = Ok (sigma num_bins (entry spectrum)).
Proof.
  intros Hn. unfold calculateTotalFlux. apply for_sigma.
  intros k acc Hk. rewrite at_entry by lia. reflexivity.
Qed.

(** calculateTotalFlux and calculateTotalCharge are the same scan: they
    return the sum of the first [num_bins] entries, accumulated from 0.0 in
    index order, when the vector has that many entries, 0.0 when
    [num_bins] is not positive, and read the vector at its size, one past
    its last entry, when it is shorter than [num_bins]. *)
Theorem calculateTotalFlux_scans (num_bins : Z) (spectrum : vec) :
  (num_bins <= size spectrum ->
   calculateTotalFlux num_bins spectrum = Ok (sigma num_bins (entry spectrum))) /\
  (num_bins <= 0 -> calculateTotalFlux num_bins spectrum = Ok 0%float) /\
  (size spectrum < num_bins ->
   calculateTotalFlux num_bins spectrum = OutOfRange (size spectrum) (size spectrum)) /\
  calculateTotalCharge num_bins spectrum = calculateTotalFlux num_bins spectrum.
Proof.
  split; [apply calculateTotalFlux_ok|]. split; [|split; [|reflexivity]].
  - intros Hn. unfold calculateTotalFlux, for_.
    replace (Z.to_nat (num_bins - 0)) with O by lia. reflexivity.
  - intros Hn. unfold calculateTotalFlux, for_.
    apply (for_loop_fails _ _ _ (length spectrum) (fun _ _ => True)).
    + unfold size in Hn. lia.
    + exact I.
    + intros k acc Hk _. rewrite at_entry by (unfold size; lia).
      eexists. split; [reflexivity | exact I].
    + intros acc _. rewrite at_out by (unfold size; lia). reflexivity.
Qed.

Lemma calculateTotalFlux_scans_witness :
  calculateTotalFlux 2 [1; 2; 4]%float = Ok 3%float /\
  calculateTotalFlux 4 [1; 2; 4]%float = OutOfRange 3 3.
Proof.
  split.
  - rewrite (proj1 (calculateTotalFlux_scans 2 [1; 2; 4]%float)); [reflexivity|].
    unfold size. cbn. lia.
  - apply (proj1 (proj2 (proj2 (calculateTotalFlux_scans 4 [1; 2; 4]%float)))).
    unfold size. cbn. lia.
Defined.

(** The total flux of a spectrum whose entries are all at least zero (so
    none is a NaN) is at least zero: it is not a NaN, not negative and not
    the negative zero. *)
Theorem total_flux_at_least_zero (num_bins : Z) (spectrum : vec) :
  num_bins <= size spectrum ->
  (forall i, 0 <= i < num_bins -> (0 <=? entry spectrum i)%float = true) ->
  exists total_flux,
    calculateTotalFlux num_bins spectrum = Ok total_flux /\
    (0 <=? total_flux)%float = true /\
    is_nan total_flux = false /\
    total_flux <> neg_zero.
Proof.
  intros Hn Hpos. eexists. split; [apply calculateTotalFlux_ok, Hn|].
  pose proof (sigma_plus_signed num_bins (entry spectrum) Hpos) as Hs.
  split; [apply DoubleArith.plus_signed_leb, Hs|].
  split; [|apply DoubleArith.plus_signed_not_neg_zero, Hs].
  destruct (is_nan (sigma num_bins (entry spectrum))) eqn:N; [|reflexivity].
  apply Double.is_nan_Prim2SF in N. rewrite N in Hs. destruct Hs.
Qed.

Lemma total_flux_at_least_zero_witness :
  exists total_flux,
    calculateTotalFlux 3 [1; 0; 4]%float = Ok total_flux /\
    (0 <=? total_flux)%float = true /\
    is_nan total_flux = false /\
    total_flux <> neg_zero.
Proof.
  apply total_flux_at_least_zero.
  - unfold size. cbn. lia.
  - intros i Hi. assert (Hcases : i = 0 \/ i = 1 \/ i = 2) by lia.
    destruct Hcases as [-> | [-> | ->]]; reflexivity.
Defined.

(** ** normalizeResponse on matrices of any shape *)

Lemma normalizeResponse_ok (num_bins num_measurements : Z) (system_response : matrix) :
  size system_response = num_measurements ->
  Forall (fun row => size row = num_bins) system_response ->
  normalizeResponse num_bins num_measurements system_response
  = Ok (tabulate num_bins
          (fun i => sigma num_measurements (fun m => cell system_response m i)),
        system_response).
Proof.
  intros Hrows Hcols. unfold normalizeResponse.
  rewrite (for_tabulate num_bins _
             (fun i => sigma num_measurements (fun m => cell system_response m i)));
    [reflexivity|].
  intros i acc Hi.
  rewrite (for_sigma num_measurements _ (fun m => cell system_response m i));
    [reflexivity|].
  intros m t Hm. rewrite at_row by lia. cbn [bind].
  rewrite at_entry by (rewrite (size_row _ num_bins) by (auto; lia); lia).
  reflexivity.
Qed.

Lemma plus_signed_not_nan (x : float) : plus_signed (Prim2SF x) -> is_nan x = false.
Proof.
  intros H. destruct (is_nan x) eqn:N; [|reflexivity].
  apply Double.is_nan_Prim2SF in N. rewrite N in H. destruct H.
Qed.

(** A column sum of coefficients that are at least zero. *)
Lemma column_sum_at_least_zero (num_measurements : Z) (system_response : matrix) (b : Z) :
  (forall m, 0 <= m < num_measurements ->
             (0 <=? cell system_response m b)%float = true) ->
  (0 <=? sigma num_measurements (fun m => cell system_response m b))%float = true /\
  is_nan (sigma num_measurements (fun m => cell system_response m b)) = false /\
  sigma num_measurements (fun m => cell system_response m b) <> neg_zero.
Proof.
  intros Hpos.
  pose proof (sigma_plus_signed num_measurements (fun m => cell system_response m b) Hpos)
    as Hs.
  split; [apply DoubleArith.plus_signed_leb, Hs|].
  split; [apply plus_signed_not_nan, Hs | apply DoubleArith.plus_signed_not_neg_zero, Hs].
Qed.

(** For a response matrix whose coefficients are all at least zero, every
    entry normalizeResponse returns is at least zero, and none is a NaN or
    the negative zero. *)
Theorem normalization_at_least_zero
    (num_bins num_measurements : Z) (system_response : matrix) :
  size system_response = num_measurements ->
  Forall (fun row => size row = num_bins) system_response ->
  (forall m b, 0 <= m < num_measurements -> 0 <= b < num_bins ->
               (0 <=? cell system_response m b)%float = true) ->
  exists normalized_vector,
    normalizeResponse num_bins num_measurements system_response
    = Ok (normalized_vector, system_response) /\
    forall b, 0 <= b < num_bins ->
      (0 <=? entry normalized_vector b)%float = true /\
      is_nan (entry normalized_vector b) = false /\
      entry normalized_vector b <> neg_zero.
Proof.
  intros Hrows Hcols Hpos. eexists. split; [apply normalizeResponse_ok; assumption|].
  intros b Hb. rewrite entry_tabulate by assumption.
  apply column_sum_at_least_zero. intros m Hm. apply Hpos; assumption.
Qed.

Lemma normalization_at_least_zero_witness :
  exists normalized_vector,
    normalizeResponse 3 2 [[1; 2; 0]; [2; 1; 0]]%float
    = Ok (normalized_vector, [[1; 2; 0]; [2; 1; 0]]%float) /\
    forall b, 0 <= b < 3 ->
      (0 <=? entry normalized_vector b)%float = true /\
      is_nan (entry normalized_vector b) = false /\
      entry normalized_vector b <> neg_zero.
Proof.
  apply normalization_at_least_zero.
  - reflexivity.
  - repeat constructor.
  - intros m b Hm Hb.
    assert (Hm' : m = 0 \/ m = 1) by lia.
    assert (Hb' : b = 0 \/ b = 1 \/ b = 2) by lia.
    destruct Hm' as [-> | ->], Hb' as [-> | [-> | ->]]; reflexivity.
Defined.

Lemma for_loop_const {St : Type} (body : Z -> St -> result St) (g : St -> St) :
  (forall i s, body i s = Ok (g s)) ->
  forall (n : nat) (lo : Z) (s : St), for_loop n lo body s = Ok (Nat.iter n g s).
Proof.
  intros Hbody. induction n as [|n IH]; intros lo s; [reflexivity|].
  cbn [for_loop]. rewrite Hbody. cbn [bind]. rewrite IH.
  f_equal. symmetry. apply Nat.iter_succ_r.
Qed.

Lemma iter_push_back_zero (n : nat) (v : vec) :
  Nat.iter n (fun acc => push_back acc 0%float) v = v ++ repeat 0%float n.
Proof.
  revert v. induction n as [|n IH]; intros v.
  - cbn. now rewrite app_nil_r.
  - rewrite Nat.iter_succ_r, IH. unfold push_back. now rewrite <- app_assoc.
Qed.

(** When [num_measurements] is not positive, normalizeResponse reads
    nothing and returns [num_bins] zeros, whatever the matrix; when the
    matrix has fewer than [num_measurements] rows (each with a first
    column) and there is a bin, it reads the row after the last one. *)
Theorem normalizeResponse_short_matrix
    (num_bins num_measurements : Z) (system_response : matrix) :
  (num_measurements <= 0 ->
   normalizeResponse num_bins num_measurements system_response
   = Ok (repeat 0%float (Z.to_nat num_bins), system_response)) /\
  (size system_response < num_measurements -> 1 <= num_bins ->
   Forall (fun row => 1 <= size row) system_response ->
   normalizeResponse num_bins num_measurements system_response
   = OutOfRange (size system_response) (size system_response)).
Proof.
  split.
  - intros Hnm. unfold normalizeResponse, for_.
    replace (Z.to_nat (num_measurements - 0)) with O by lia. cbn [for_loop bind].
    rewrite (for_loop_const _ (fun acc => push_back acc 0%float)) by reflexivity.
    cbn [bind]. rewrite iter_push_back_zero, Z.sub_0_r. reflexivity.
  - intros Hrows Hnb Hcols. unfold normalizeResponse, for_.
    replace (Z.to_nat (num_bins - 0)) with (S (Z.to_nat (num_bins - 1))) by lia.
    cbn [for_loop].
    rewrite (for_loop_fails _ (size system_response) (size system_response)
               (length system_response) (fun _ _ => True)); [reflexivity | | exact I | |].
    + unfold size in Hrows. lia.
    + intros k acc Hk _. rewrite Z.add_0_l.
      rewrite at_row by (unfold size; lia). cbn [bind].
      rewrite at_entry.
      * eexists. split; [reflexivity | exact I].
      * rewrite Forall_forall in Hcols.
        assert (Hin : In (nth (Z.to_nat (Z.of_nat k)) system_response []) system_response)
          by (apply nth_In; lia).
        specialize (Hcols _ Hin). lia.
    + intros acc _. rewrite at_out by (unfold size; lia). reflexivity.
Qed.

Lemma normalizeResponse_short_matrix_witness :
  normalizeResponse 2 0 [[1%float]] = Ok ([0; 0]%float, [[1%float]]) /\
  normalizeResponse 2 3 [[1; 2]; [3; 4]]%float = OutOfRange 2 2.
Proof.
  split.
  - apply (proj1 (normalizeResponse_short_matrix 2 0 [[1%float]])). lia.
  - apply (proj2 (normalizeResponse_short_matrix 2 3 [[1; 2]; [3; 4]]%float)).
    + unfold size. cbn. lia.
    + lia.
    + repeat constructor; unfold size; cbn; lia.
Defined.

(** ** normalizeResponse feeding runMLEM and runMAP *)

(** With a response matrix whose coefficients are all at least zero and the
    normalization vector normalizeResponse computes from it, runMAP with
    beta = 0 returns the count, the spectrum and the ratio vector of
    runMLEM whenever the squared differences of every pass of the runMLEM
    run are finite. *)
Theorem map_with_beta_zero_on_normalized_response
    (cutoff : Z) (error : float) (num_measurements num_bins : Z) (st : store) :
  well_formed num_measurements num_bins st ->
  2 <= num_bins ->
  (forall m b, 0 <= m < num_measurements -> 0 <= b < num_bins ->
               (0 <=? cell (nns_response st) m b)%float = true) ->
  normalizeResponse num_bins num_measurements (nns_response st)
  = Ok (normalized_response st, nns_response st) ->
  (forall s, In s (mlem_trace (Z.to_nat cutoff) error num_measurements num_bins st) ->
     forall b, 0 <= b < num_bins -> is_finite (roughness num_bins s b) = true) ->
  exists k s1 s2,
    runMLEM cutoff error num_measurements num_bins st = Ok (k, s1) /\
    runMAP 0 cutoff error num_measurements num_bins st = Ok (k, s2) /\
    spectrum s1 = spectrum s2 /\
    mlem_ratio s1 = mlem_ratio s2.
Proof.
  intros Hwf Hnb Hpos Hnorm Hfin.
  pose proof (normalizeResponse_ok num_bins num_measurements (nns_response st)
                ltac:(apply Hwf) ltac:(apply Hwf)) as Ev.
  rewrite Hnorm in Ev. injection Ev as Ev.
  apply map_with_beta_zero_when_neutral; try assumption.
  intros s Hs. apply energy_neutral_when_finite. intros b Hb.
  split; [exact (Hfin s Hs b Hb)|].
  rewrite (mlem_trace_normalized _ _ _ _ st Hwf s Hs), Ev.
  rewrite entry_tabulate by assumption.
  apply column_sum_at_least_zero. intros m Hm. apply Hpos; assumption.
Qed.

Lemma map_with_beta_zero_on_normalized_response_witness :
  exists k s1 s2,
    runMLEM 3 0.0625 2 3 three_bins = Ok (k, s1) /\
    runMAP 0 3 0.0625 2 3 three_bins = Ok (k, s2) /\
    spectrum s1 = spectrum s2 /\
    mlem_ratio s1 = mlem_ratio s2.
Proof.
  apply (map_with_beta_zero_on_normalized_response 3 0.0625 2 3 three_bins three_bins_wf);
    [lia | | reflexivity |].
  - intros m b Hm Hb.
    assert (Hm' : m = 0 \/ m = 1) by lia.
    assert (Hb' : b = 0 \/ b = 1 \/ b = 2) by lia.
    destruct Hm' as [-> | ->], Hb' as [-> | [-> | ->]]; reflexivity.
  - intros s Hs. vm_compute in Hs.
    destruct Hs as [<- | [<- | [<- | []]]]; intros b Hb;
      assert (Hcases : b = 0 \/ b = 1 \/ b = 2) by lia;
      destruct Hcases as [-> | [-> | ->]]; vm_compute; reflexivity.
Defined.

(** ** Resuming a run that stopped at its cutoff *)

Lemma mlem_loop_shift (error : float) (num_measurements num_bins d : Z) :
  forall (fuel : nat) (mlem_index : Z) (st : store),
    mlem_loop fuel (mlem_index + d) error num_measurements num_bins st
    = shift_count d (mlem_loop fuel mlem_index error num_measurements num_bins st).
Proof.
  induction fuel as [|fuel IH]; intros mlem_index st; cbn [mlem_loop]; [reflexivity|].
  destruct (mlem_iteration error num_measurements num_bins st) as [[[|] st1]|];
    cbn [bind]; try reflexivity.
  replace (mlem_index + d + 1) with (mlem_index + 1 + d) by lia. apply IH.
Qed.

Lemma map_loop_shift (beta error : float) (num_measurements num_bins d : Z) :
  forall (fuel : nat) (mlem_index : Z) (st : store),
    map_loop fuel (mlem_index + d) beta error num_measurements num_bins st
    = shift_count d (map_loop fuel mlem_index beta error num_measurements num_bins st).
Proof.
  induction fuel as [|fuel IH]; intros mlem_index st; cbn [map_loop]; [reflexivity|].
  destruct (map_iteration beta error num_measurements num_bins st) as [[[|] st1]|];
    cbn [bind]; try reflexivity.
  replace (mlem_index + d + 1) with (mlem_index + 1 + d) by lia. apply IH.
Qed.

Lemma mlem_loop_resume (error : float) (num_measurements num_bins : Z) (b : nat) :
  forall (a : nat) (mlem_index : Z) (st st1 : store),
    mlem_loop a mlem_index error num_measurements num_bins st
    = Ok (mlem_index + Z.of_nat a, st1) ->
    mlem_loop (a + b) mlem_index error num_measurements num_bins st
    = mlem_loop b (mlem_index + Z.of_nat a) error num_measurements num_bins st1.
Proof.
  induction a as [|a IH]; intros mlem_index st st1 E; cbn [mlem_loop Nat.add] in *.
  - injection E as _ <-. now rewrite Z.add_0_r.
  - destruct (mlem_iteration error num_measurements num_bins st) as [[[|] st']|];
      cbn [bind] in *; [|injection E as E _; lia|discriminate].
    rewrite (IH (mlem_index + 1) st' st1); [f_equal; lia|].
    rewrite E. do 2 f_equal. lia.
Qed.

Lemma map_loop_resume (beta error : float) (num_measurements num_bins : Z) (b : nat) :
  forall (a : nat) (mlem_index : Z) (st st1 : store),
    map_loop a mlem_index beta error num_measurements num_bins st
    = Ok (mlem_index + Z.of_nat a, st1) ->
    map_loop (a + b) mlem_index beta error num_measurements num_bins st
    = map_loop b (mlem_index + Z.of_nat a) beta error num_measurements num_bins st1.
Proof.
  induction a as [|a IH]; intros mlem_index st st1 E; cbn [map_loop Nat.add] in *.
  - injection E as _ <-. now rewrite Z.add_0_r.
  - destruct (map_iteration beta error num_measurements num_bins st) as [[[|] st']|];
      cbn [bind] in *; [|injection E as E _; lia|discriminate].
    rewrite (IH (mlem_index + 1) st' st1); [f_equal; lia|].
    rewrite E. do 2 f_equal. lia.
Qed.

(** A run of runMLEM or runMAP that returns its cutoff [a] can be resumed:
    a second call with cutoff [b >= 0] on the store it left does what one
    call with cutoff [a + b] does, the second count being counted from
    [a]; an out-of-range read of the second call is the one of the single
    call. *)
Theorem run_resumes_after_cutoff
    (a b : Z) (beta error : float) (num_measurements num_bins : Z) (st st1 : store) :
  0 <= b ->
  (runMLEM a error num_measurements num_bins st = Ok (a, st1) ->
   runMLEM (a + b) error num_measurements num_bins st
   = shift_count a (runMLEM b error num_measurements num_bins st1)) /\
  (runMAP beta a error num_measurements num_bins st = Ok (a, st1) ->
   runMAP beta (a + b) error num_measurements num_bins st
   = shift_count a (runMAP beta b error num_measurements num_bins st1)).
Proof.
  intros Hb. split; intros E.
  - assert (Ha : 0 <= a) by (apply mlem_loop_bounds in E; lia).
    unfold runMLEM in *. rewrite Z2Nat.inj_add by lia.
    rewrite (mlem_loop_resume _ _ _ _ (Z.to_nat a) 0 st st1)
      by (rewrite E; do 2 f_equal; lia).
    rewrite <- (mlem_loop_shift _ _ _ a (Z.to_nat b) 0 st1). f_equal. lia.
  - assert (Ha : 0 <= a) by (apply map_loop_bounds in E; lia).
    unfold runMAP in *. rewrite Z2Nat.inj_add by lia.
    rewrite (map_loop_resume _ _ _ _ _ (Z.to_nat a) 0 st st1)
      by (rewrite E; do 2 f_equal; lia).
    rewrite <- (map_loop_shift _ _ _ _ a (Z.to_nat b) 0 st1). f_equal. lia.
Qed.

Lemma run_resumes_after_cutoff_witness :
  exists st1,
    runMLEM 2 0.0625 2 3 three_bins = Ok (2, st1) /\
    runMLEM (2 + 3) 0.0625 2 3 three_bins = shift_count 2 (runMLEM 3 0.0625 2 3 st1).
Proof.
  eexists. split; [vm_compute; reflexivity|].
  apply (proj1 (run_resumes_after_cutoff 2 3 0 0.0625 2 3 three_bins _ ltac:(lia))).
  vm_compute. reflexivity.
Defined.

(** ** The ratio vector a run returns *)

Lemma last_nonempty_default {A : Type} (l : list A) :
  forall (x d d' : A), last (x :: l) d = last (x :: l) d'.
Proof.
  induction l as [|y l IH]; intros x d d'; [reflexivity|].
  change (last (y :: l) d = last (y :: l) d'). apply IH.
Qed.

Lemma last_cons_nonempty {A : Type} (a x : A) (l : list A) (d : A) :
  last (a :: x :: l) d = last (x :: l) a.
Proof.
  change (last (x :: l) d = last (x :: l) a). apply last_nonempty_default.
Qed.

Lemma last_nonempty_In {A : Type} (l : list A) :
  forall (x d : A), In (last (x :: l) d) (x :: l).
Proof.
  induction l as [|y l IH]; intros x d; [now left|].
  right. change (In (last (y :: l) d) (y :: l)). apply IH.
Qed.

Lemma visited_head (next : store -> store) (continue : store -> bool)
    (fuel : nat) (st : store) :
  exists l, visited next continue (S fuel) st = st :: l.
Proof. cbn [visited]. eexists. reflexivity. Qed.

(** The store a run of at least one pass returns is the one its last
    started pass leaves. *)
Lemma run_passes_last (next : store -> store) (continue : store -> bool) :
  forall (fuel : nat) (mlem_index : Z) (st : store),
    snd (run_passes next continue (S fuel) mlem_index st)
    = next (last (visited next continue (S fuel) st) st).
Proof.
  induction fuel as [|fuel IH]; intros mlem_index st.
  - cbn. destruct (continue st); reflexivity.
  - cbn [run_passes visited]. destruct (continue st) eqn:Hc; [|reflexivity].
    change (snd (run_passes next continue (S fuel) (mlem_index + 1) (next st))
            = next (last (st :: visited next continue (S fuel) (next st)) st)).
    rewrite IH.
    destruct (visited_head next continue fuel (next st)) as [l ->].
    rewrite last_cons_nonempty. f_equal. apply last_nonempty_default.
Qed.

(** The ratio vector runMLEM and runMAP return belongs to the spectrum in
    which the last pass started, and the spectrum they return is one
    update ahead of it: for a positive cutoff and dimensions that agree,
    the store returned is the one the pass started in the last store of
    the trace leaves. *)
Theorem returned_ratio_is_one_update_behind
    (cutoff : Z) (beta error : float) (num_measurements num_bins : Z) (st : store) :
  0 < cutoff ->
  well_formed num_measurements num_bins st ->
  (exists k st' s,
      runMLEM cutoff error num_measurements num_bins st = Ok (k, st') /\
      s = last (mlem_trace (Z.to_nat cutoff) error num_measurements num_bins st) st /\
      (forall m, 0 <= m < num_measurements ->
         entry (mlem_ratio st') m
         = (entry (measurements st) m
            / sigma num_bins
                (fun b => cell (nns_response st) m b * entry (spectrum s) b))%float) /\
      (forall b, 0 <= b < num_bins ->
         entry (spectrum st') b = mlem_update num_measurements num_bins s b)) /\
  (2 <= num_bins ->
   exists k st' s,
      runMAP beta cutoff error num_measurements num_bins st = Ok (k, st') /\
      s = last (map_trace (Z.to_nat cutoff) beta error num_measurements num_bins st) st /\
      (forall m, 0 <= m < num_measurements ->
         entry (mlem_ratio st') m
         = (entry (measurements st) m
            / sigma num_bins
                (fun b => cell (nns_response st) m b * entry (spectrum s) b))%float) /\
      (forall b, 0 <= b < num_bins ->
         entry (spectrum st') b = map_update beta num_measurements num_bins s b)).
Proof.
  intros Hc Hwf. destruct (Z.to_nat cutoff) as [|fuel] eqn:Hf; [lia|].
  split; [|intros Hnb].
  - unfold runMLEM. rewrite Hf, mlem_loop_ok, mlem_trace_ok by assumption. unfold mlem_run.
    set (next := mlem_next num_measurements num_bins).
    set (continue := must_continue error num_measurements num_bins).
    eexists _, _, _. split; [rewrite <- surjective_pairing; reflexivity|].
    split; [reflexivity|]. rewrite run_passes_last.
    set (s := last (visited next continue (S fuel) st) st).
    assert (Hs : untouched st s /\ well_formed num_measurements num_bins s).
    { destruct (visited_head next continue fuel st) as [l Hl].
      assert (Hin : In s (visited next continue (S fuel) st)).
      { unfold s. rewrite Hl. apply last_nonempty_In. }
      split.
      - apply (visited_invariant next continue (untouched st)) with (fuel := S fuel) (st := st);
          [|apply untouched_refl|exact Hin].
        intros s0 H0. apply (untouched_trans st s0 (next s0) H0). repeat split.
      - apply (visited_invariant next continue _
                 (mlem_next_wf num_measurements num_bins) (S fuel) st Hwf s Hin). }
    destruct Hs as [[Hm [HR _]] Hwfs]. unfold next. cbn [mlem_next mlem_ratio spectrum].
    split.
    + intros m Hm'. rewrite entry_tabulate by assumption.
      unfold ratio, estimated. now rewrite Hm, HR.
    + intros b Hb. now rewrite entry_tabulate.
  - unfold runMAP. rewrite Hf, map_loop_ok, map_trace_ok by assumption. unfold map_run.
    set (next := map_next beta num_measurements num_bins).
    set (continue := must_continue error num_measurements num_bins).
    eexists _, _, _. split; [rewrite <- surjective_pairing; reflexivity|].
    split; [reflexivity|]. rewrite run_passes_last.
    set (s := last (visited next continue (S fuel) st) st).
    assert (Hs : untouched st s /\ well_formed num_measurements num_bins s).
    { destruct (visited_head next continue fuel st) as [l Hl].
      assert (Hin : In s (visited next continue (S fuel) st)).
      { unfold s. rewrite Hl. apply last_nonempty_In. }
      split.
      - apply (visited_invariant next continue (untouched st)) with (fuel := S fuel) (st := st);
          [|apply untouched_refl|exact Hin].
        intros s0 H0. apply (untouched_trans st s0 (next s0) H0). repeat split.
      - apply (visited_invariant next continue _
                 (map_next_wf beta num_measurements num_bins) (S fuel) st Hwf s Hin). }
    destruct Hs as [[Hm [HR _]] Hwfs]. unfold next. cbn [map_next mlem_ratio spectrum].
    split.
    + intros m Hm'. rewrite entry_tabulate by assumption.
      unfold ratio, estimated. now rewrite Hm, HR.
    + intros b Hb. now rewrite entry_tabulate.
Qed.

Lemma returned_ratio_is_one_update_behind_witness :
  exists k st',
    runMLEM 2 0.0625 2 3 three_bins = Ok (k, st') /\
    forall m, 0 <= m < 2 ->
      entry (mlem_ratio st') m
      = (entry (measurements three_bins) m
         / sigma 3 (fun b => cell (nns_response three_bins) m b
                             * entry (spectrum (last (mlem_trace 2 0.0625 2 3 three_bins)
                                                     three_bins)) b))%float.
Proof.
  destruct (proj1 (returned_ratio_is_one_update_behind 2 0 0.0625 2 3 three_bins
                     ltac:(lia) three_bins_wf))
    as [k [st' [s [E [Hs [Hr _]]]]]].
  exists k, st'. split; [exact E|].
  intros m Hm. rewrite (Hr m Hm), Hs. reflexivity.
Defined.

(** After one pass on [three_bins] the returned ratio[0] is 2, the ratio of
    the initial spectrum; the returned spectrum has another ratio. *)
Example returned_ratio_is_not_the_ratio_of_the_returned_spectrum :
  exists st',
    runMLEM 1 0.0625 2 3 three_bins = Ok (1, st') /\
    entry (mlem_ratio st') 0 = 2%float /\
    ratio 3 three_bins 0 = 2%float /\
    (ratio 3 st' 0 =? 2)%float = false.
Proof. eexists. split; [vm_compute; reflexivity|]. repeat split. Qed.

(** ** The convergence test and beta *)

(** The ratio vector and the value of [continue_mlem] of a pass of runMAP do
    not depend on beta, and are those of the pass of runMLEM on the same
    store; so, for a positive cutoff, runMAP returns 0 exactly when
    runMLEM does. *)
Theorem convergence_test_ignores_beta
    (cutoff : Z) (beta error : float) (num_measurements num_bins : Z) (st : store) :
  well_formed num_measurements num_bins st ->
  2 <= num_bins ->
  (exists c s1 s2,
      mlem_iteration error num_measurements num_bins st = Ok (c, s1) /\
      map_iteration beta error num_measurements num_bins st = Ok (c, s2) /\
      mlem_ratio s1 = mlem_ratio s2) /\
  (0 < cutoff ->
   ((exists s1, runMLEM cutoff error num_measurements num_bins st = Ok (0, s1)) <->
    (exists s2, runMAP beta cutoff error num_measurements num_bins st = Ok (0, s2)))).
Proof.
  intros Hwf Hnb. split.
  - eexists _, _, _. split; [apply mlem_iteration_ok, Hwf|].
    split; [apply map_iteration_ok; assumption | reflexivity].
  - intros Hc. unfold runMLEM, runMAP. rewrite mlem_loop_ok, map_loop_ok by assumption.
    unfold mlem_run, map_run.
    destruct (Z.to_nat cutoff) as [|fuel] eqn:Hf; [lia|]. cbn [run_passes].
    destruct (must_continue error num_measurements num_bins st).
    + pose proof (run_passes_bounds (mlem_next num_measurements num_bins)
                    (must_continue error num_measurements num_bins) fuel (0 + 1)
                    (mlem_next num_measurements num_bins st)) as H1.
      pose proof (run_passes_bounds (map_next beta num_measurements num_bins)
                    (must_continue error num_measurements num_bins) fuel (0 + 1)
                    (map_next beta num_measurements num_bins st)) as H2.
      split; intros [s E]; injection E as E; change (0 + 1) with 1 in *.
      * rewrite E in H1. cbn in H1. lia.
      * rewrite E in H2. cbn in H2. lia.
    + split; intros _; eexists; reflexivity.
Qed.

Lemma convergence_test_ignores_beta_witness :
  exists c s1 s2,
    mlem_iteration 0.0625 2 3 three_bins = Ok (c, s1) /\
    map_iteration 8 0.0625 2 3 three_bins = Ok (c, s2) /\
    mlem_ratio s1 = mlem_ratio s2.
Proof.
  apply (proj1 (convergence_test_ignores_beta 1 8 0.0625 2 3 three_bins
                  three_bins_wf ltac:(lia))).
Defined.

(** ** Runs on degenerate dimensions *)

(** With no measurement at all (and dimensions that agree), the first pass
    of runMLEM finds no ratio outside the band: for a positive cutoff the
    run returns 0 with an empty ratio vector, and it has replaced every
    spectrum[b] by spectrum[b] * 0.0 / normalization[b]. *)
Theorem runMLEM_without_measurements
    (cutoff : Z) (error : float) (num_bins : Z) (st : store) :
  0 < cutoff ->
  well_formed 0 num_bins st ->
  exists st',
    runMLEM cutoff error 0 num_bins st = Ok (0, st') /\
    mlem_ratio st' = [] /\
    size (spectrum st') = num_bins /\
    forall b, 0 <= b < num_bins ->
      entry (spectrum st') b
      = (entry (spectrum st) b * 0 / entry (normalized_response st) b)%float.
Proof.
  intros Hc Hwf. unfold runMLEM. rewrite mlem_loop_ok by assumption. unfold mlem_run.
  destruct (Z.to_nat cutoff) as [|fuel] eqn:Hf; [lia|]. cbn [run_passes].
  change (must_continue error 0 num_bins st) with false. cbn iota.
  eexists. split; [reflexivity|]. cbn [mlem_next mlem_ratio spectrum].
  split; [reflexivity|]. split.
  - apply (size_tabulate_eq (spectrum st)), Hwf.
  - intros b Hb. now rewrite entry_tabulate.
Qed.

Lemma runMLEM_without_measurements_witness :
  exists st',
    runMLEM 5 0.0625 0 2 (mkStore [] [3; 4]%float [] [1; 2]%float [9%float] []) = Ok (0, st') /\
    mlem_ratio st' = [] /\
    spectrum st' = [0; 0]%float.
Proof.
  destruct (runMLEM_without_measurements 5 0.0625 2
              (mkStore [] [3; 4]%float [] [1; 2]%float [9%float] []))
    as [st' [E [Hr _]]]; [lia | constructor; try reflexivity; constructor |].
  exists st'. split; [exact E|]. split; [exact Hr|].
  vm_compute in E. now injection E as <-.
Defined.




(** ** Zeros and NaNs in the aggregate statistics *)

Module DoubleZero.

Local Open Scope float_scope.

Lemma is_finite_Prim2SF (t : float) :
  is_finite t = true ->
  (exists s, Prim2SF t = S754_zero s) \/ (exists s m e, Prim2SF t = S754_finite s m e).
Proof.
  unfold is_finite. intros H. apply negb_true_iff, orb_false_iff in H.
  destruct H as [Hnan Hinf].
  destruct (Prim2SF t) as [s|s| |s m e] eqn:Et.
  - left. now exists s.
  - unfold is_infinity in Hinf. rewrite eqb_spec, abs_spec, Et in Hinf. discriminate.
  - assert (N : is_nan t = true) by (apply Double.is_nan_Prim2SF, Et). congruence.
  - right. now exists s, m, e.
Qed.

(** A finite number minus itself is +0. *)
Lemma sub_self (t : float) : is_finite t = true -> t - t = 0.
Proof.
  intros H. apply Prim2SF_inj. rewrite sub_spec.
  change (Prim2SF 0) with (S754_zero false).
  destruct (is_finite_Prim2SF t H) as [[s ->] | [s [m [e ->]]]].
  - destruct s; reflexivity.
  - unfold SF64sub, SFsub. rewrite Z.sub_diag. reflexivity.
Qed.

Lemma zero_div_int (n : Z) : (0 < n < 2 ^ 53)%Z -> sqrt (0 / double_of_int n) = 0.
Proof.
  intros Hn. apply Prim2SF_inj. rewrite sqrt_spec, div_spec.
  change (Prim2SF 0) with (S754_zero false).
  destruct (DoubleArith.double_of_int_spec n) as [[H0 _] | [_ [m [e E]]]]; [lia | lia |].
  rewrite E. replace (Z.ltb n 0) with false by (symmetry; apply Z.ltb_ge; lia).
  reflexivity.
Qed.

Lemma add_zeros (a b : float) : is_zero a = true -> is_zero b = true -> is_zero (a + b) = true.
Proof.
  rewrite !Double.is_zero_Prim2SF, add_spec. intros [sa ->] [sb ->].
  destruct sa, sb; eexists; reflexivity.
Qed.

(** A product with a zero, divided by a zero, is a NaN. *)
Lemma zero_term_is_nan (e s total : float) :
  is_zero s = true -> is_zero total = true -> is_nan (e * s / total) = true.
Proof.
  rewrite !Double.is_zero_Prim2SF, Double.is_nan_Prim2SF, div_spec, mul_spec.
  intros [ss ->] [st ->]. destruct (Prim2SF e) as [se|se| |se m x]; reflexivity.
Qed.

Lemma add_nan_r (a b : float) : is_nan b = true -> is_nan (a + b) = true.
Proof.
  rewrite !Double.is_nan_Prim2SF, add_spec. intros ->.
  destruct (Prim2SF a); reflexivity.
Qed.

End DoubleZero.

Lemma sigma_of_zeros (n : Z) (f : Z -> float) :
  (forall k, 0 <= k < n -> f k = 0%float) -> sigma n f = 0%float.
Proof.
  intros H. rewrite (sigma_ext n f (fun _ => 0%float) H), sigma_to_nat.
  induction (Z.to_nat n) as [|k IH]; [reflexivity|].
  rewrite sigma_succ, IH. reflexivity.
Qed.

Lemma sigma_is_zero (n : Z) (f : Z -> float) :
  (forall k, 0 <= k < n -> is_zero (f k) = true) -> is_zero (sigma n f) = true.
Proof.
  intros H. rewrite sigma_to_nat.
  assert (Hn : (Z.to_nat n <= Z.to_nat n)%nat) by lia. revert Hn.
  generalize (Z.to_nat n) at 1 3. intros k.
  induction k as [|k IH]; intros Hk; [reflexivity|].
  rewrite sigma_succ. apply DoubleZero.add_zeros; [apply IH; lia | apply H; lia].
Qed.

Lemma sigma_is_nan (n : Z) (f : Z -> float) :
  1 <= n -> is_nan (f (n - 1)) = true -> is_nan (sigma n f) = true.
Proof.
  intros Hn H. rewrite sigma_to_nat.
  replace (Z.to_nat n) with (S (Z.to_nat (n - 1))) by lia.
  rewrite sigma_succ. apply DoubleZero.add_nan_r.
  replace (Z.of_nat (Z.to_nat (n - 1))) with (n - 1) by lia. exact H.
Qed.

(** ** calculateRMSD *)

(** The squared difference calculateRMSD sums for sample [i]. *)
Lemma calculateRMSD_ok (num_samples : Z) (true_value : float) (sample_vector : vec) :
  num_samples <= size sample_vector ->
  calculateRMSD num_samples true_value sample_vector
  = Ok (sqrt (sigma num_samples
                (fun i => ((true_value - entry sample_vector i)
                           * (true_value - entry sample_vector i))%float)
              / double_of_int num_samples)).
Proof.
  intros Hn. unfold calculateRMSD.
  rewrite (for_sigma num_samples _
             (fun i => ((true_value - entry sample_vector i)
                        * (true_value - entry sample_vector i))%float)); [reflexivity|].
  intros k acc Hk. rewrite at_entry by lia. reflexivity.
Qed.

(** The deviation of no sample at all is 0.0/0, a NaN, and the deviation
    of samples that all equal a finite true value is +0.0. *)
Theorem calculateRMSD_of_no_or_equal_samples (true_value : float) (sample_vector : vec) :
  calculateRMSD 0 true_value sample_vector = Ok nan /\
  (forall num_samples,
      0 < num_samples <= size sample_vector ->
      num_samples < 2 ^ 31 ->
      is_finite true_value = true ->
      (forall i, 0 <= i < num_samples -> entry sample_vector i = true_value) ->
      calculateRMSD num_samples true_value sample_vector = Ok 0%float).
Proof.
  split; [reflexivity|].
  intros num_samples Hn Hint Hfin Hall. rewrite calculateRMSD_ok by lia.
  rewrite sigma_of_zeros.
  - rewrite DoubleZero.zero_div_int; [reflexivity|]. lia.
  - intros k Hk. rewrite (Hall k Hk), (DoubleZero.sub_self true_value Hfin). reflexivity.
Qed.

Lemma calculateRMSD_of_no_or_equal_samples_witness :
  calculateRMSD 3 2.5 [2.5; 2.5; 2.5; 7]%float = Ok 0%float.
Proof.
  apply (proj2 (calculateRMSD_of_no_or_equal_samples 2.5 [2.5; 2.5; 2.5; 7]%float)).
  - unfold size. cbn. lia.
  - lia.
  - reflexivity.
  - intros i Hi. assert (Hcases : i = 0 \/ i = 1 \/ i = 2) by lia.
    destruct Hcases as [-> | [-> | ->]]; reflexivity.
Defined.

(** ** Deviations and uncertainties are never negative *)

(** Whatever calculateRMSD, calculateSumUncertainty and
    calculateEnergyUncertainty return is a NaN or at least zero. *)
Theorem deviations_are_nan_or_at_least_zero (r : float) :
  (forall num_samples true_value sample_vector,
      calculateRMSD num_samples true_value sample_vector = Ok r ->
      is_nan r = true \/ (0 <=? r)%float = true) /\
  (forall num_values value_uncertainties,
      calculateSumUncertainty num_values value_uncertainties = Ok r ->
      is_nan r = true \/ (0 <=? r)%float = true) /\
  (forall num_bins energy_bins spectrum spectrum_uncertainty total_flux
          total_flux_uncertainty,
      calculateEnergyUncertainty num_bins energy_bins spectrum spectrum_uncertainty
        total_flux total_flux_uncertainty = Ok r ->
      is_nan r = true \/ (0 <=? r)%float = true).
Proof.
  split; [|split].
  - intros num_samples true_value sample_vector E. unfold calculateRMSD in E.
    bind_name E as sum Esum. injection E as <-.
    apply DoubleArith.sqrt_nan_or_at_least_zero.
  - intros num_values value_uncertainties E. unfold calculateSumUncertainty in E.
    bind_name E as sum Esum. injection E as <-.
    apply DoubleArith.sqrt_nan_or_at_least_zero.
  - intros num_bins energy_bins spectrum spectrum_uncertainty total_flux
           total_flux_uncertainty E.
    unfold calculateEnergyUncertainty in E.
    bind_name E as sum Esum. injection E as <-.
    apply DoubleArith.sqrt_nan_or_at_least_zero.
Qed.

Lemma deviations_are_nan_or_at_least_zero_witness :
  (0 <=? 5)%float = true /\
  calculateSumUncertainty 2 [3; -4]%float = Ok 5%float.
Proof.
  assert (E : calculateSumUncertainty 2 [3; -4]%float = Ok 5%float) by reflexivity.
  split; [|exact E].
  destruct (proj1 (proj2 (deviations_are_nan_or_at_least_zero 5)) 2 [3; -4]%float E)
    as [N | H]; [discriminate N | exact H].
Defined.

(** ** calculateRMSD_vector *)

Lemma entry_column (sampled_vectors : matrix) (i m : Z) :
  0 <= m < size sampled_vectors ->
  entry (column sampled_vectors i) m = cell sampled_vectors m i.
Proof.
  intros Hm. unfold column, entry at 1, cell.
  rewrite (nth_indep _ nan (entry [] i)).
  - apply (map_nth (fun row => entry row i)).
  - rewrite length_map. unfold size in Hm. destruct Hm as [H0 H1].
    apply Z2Nat.inj_lt in H1; [|lia|lia]. rewrite Nat2Z.id in H1. exact H1.
Qed.

(** calculateRMSD_vector returns 1 and appends to [rms_differences], which
    it does not clear, one entry per element of [true_vector]: entry [i]
    is what calculateRMSD returns for [true_vector[i]] and column [i] of
    the sampled vectors. *)
Theorem calculateRMSD_vector_appends_column_deviations
    (num_samples : Z) (true_vector : vec) (sampled_vectors : matrix)
    (rms_differences : vec) :
  num_samples <= size sampled_vectors ->
  Forall (fun row => size true_vector <= size row) sampled_vectors ->
  exists appended,
    calculateRMSD_vector num_samples true_vector sampled_vectors rms_differences
    = Ok (1, rms_differences ++ appended) /\
    size appended = size true_vector /\
    forall i, 0 <= i < size true_vector ->
      calculateRMSD num_samples (entry true_vector i) (column sampled_vectors i)
      = Ok (entry appended i).
Proof.
  intros Hn Hrows.
  set (f := fun i =>
         sqrt (sigma num_samples
                 (fun m => ((entry true_vector i - cell sampled_vectors m i)
                            * (entry true_vector i - cell sampled_vectors m i))%float)
               / double_of_int num_samples)).
  exists (tabulate (size true_vector) f).
  split; [|split].
  - unfold calculateRMSD_vector. unfold for_ at 1.
    match goal with
    | |- context [for_loop ?n ?lo ?body ?s0] =>
        destruct (for_loop_inv
                    (fun k acc => acc = rms_differences ++ tabulate (Z.of_nat k) f)
                    body n lo s0) as [s [E Hs]]
    end.
    + cbn. now rewrite app_nil_r.
    + intros k acc Hk ->. rewrite Z.add_0_l.
      rewrite (for_sigma num_samples _
                 (fun m => ((entry true_vector (Z.of_nat k)
                             - cell sampled_vectors m (Z.of_nat k))
                            * (entry true_vector (Z.of_nat k)
                               - cell sampled_vectors m (Z.of_nat k)))%float)).
      * cbn [bind]. eexists. split; [reflexivity|].
        rewrite tabulate_succ. unfold push_back. now rewrite <- app_assoc.
      * intros m t Hm. rewrite at_entry by (unfold size in *; lia). cbn [bind].
        rewrite at_row by lia. cbn [bind].
        rewrite at_entry; [reflexivity|].
        rewrite Forall_forall in Hrows.
        assert (Hin : In (nth (Z.to_nat m) sampled_vectors []) sampled_vectors)
          by (apply nth_In; unfold size in Hn; lia).
        specialize (Hrows _ Hin). unfold size in *. lia.
    + rewrite E, Hs. cbn [bind].
      rewrite Z.sub_0_r, Z2Nat.id by apply size_nonneg. reflexivity.
  - rewrite size_tabulate. pose proof (size_nonneg true_vector). lia.
  - intros i Hi. rewrite entry_tabulate by assumption.
    rewrite calculateRMSD_ok by (unfold column, size; rewrite length_map; exact Hn).
    unfold f. do 3 f_equal. apply sigma_ext. intros m Hm.
    now rewrite entry_column by lia.
Qed.

Lemma calculateRMSD_vector_appends_column_deviations_witness :
  calculateRMSD_vector 2 [1; 5]%float [[4; 5]; [4; 5]]%float [9%float]
  = Ok (1, [9; 3; 0]%float).
Proof.
  destruct (calculateRMSD_vector_appends_column_deviations
              2 [1; 5]%float [[4; 5]; [4; 5]]%float [9%float])
    as [appended [E _]].
  - unfold size. cbn. lia.
  - repeat constructor; unfold size; cbn; lia.
  - rewrite E. vm_compute in E. injection E as E. rewrite <- E. reflexivity.
Defined.

(** ** calculateAverageEnergy *)

Lemma calculateAverageEnergy_ok (num_bins : Z) (spectrum energy_bins : vec) :
  num_bins <= size spectrum -> num_bins <= size energy_bins ->
  calculateAverageEnergy num_bins spectrum energy_bins
  = Ok (sigma num_bins
          (fun i => (entry energy_bins i * entry spectrum i
                     / sigma num_bins (entry spectrum))%float)).
Proof.
  intros Hs He. unfold calculateAverageEnergy.
  rewrite calculateTotalFlux_ok by assumption. cbn [bind].
  apply for_sigma. intros k acc Hk. rewrite !at_entry by lia. reflexivity.
Qed.

(** The average energy of a spectrum whose entries are all zero is a NaN,
    whatever the energies: the total flux is zero and every term is a
    zero or a NaN divided by zero. *)
Theorem average_energy_of_zero_spectrum_is_nan
    (num_bins : Z) (spectrum energy_bins : vec) :
  1 <= num_bins ->
  num_bins <= size spectrum -> num_bins <= size energy_bins ->
  (forall i, 0 <= i < num_bins -> is_zero (entry spectrum i) = true) ->
  exists avg_energy,
    calculateAverageEnergy num_bins spectrum energy_bins = Ok avg_energy /\
    is_nan avg_energy = true.
Proof.
  intros Hn Hs He Hz. eexists. split; [apply calculateAverageEnergy_ok; assumption|].
  apply sigma_is_nan; [exact Hn|].
  apply DoubleZero.zero_term_is_nan; [apply Hz; lia|].
  apply sigma_is_zero, Hz.
Qed.

Lemma average_energy_of_zero_spectrum_is_nan_witness :
  exists avg_energy,
    calculateAverageEnergy 2 [0; 0]%float [1; 2]%float = Ok avg_energy /\
    is_nan avg_energy = true.
Proof.
  apply average_energy_of_zero_spectrum_is_nan; try lia; try (unfold size; cbn; lia).
  intros i Hi. assert (Hcases : i = 0 \/ i = 1) by lia.
  destruct Hcases as [-> | ->]; reflexivity.
Defined.

(** ** calculateDose *)

Lemma calculateDose_ok (num_bins : Z) (spectrum icrp_factors : vec) :
  num_bins <= size spectrum -> num_bins <= size icrp_factors ->
  calculateDose num_bins spectrum icrp_factors
  = Ok (sigma num_bins (fun i => (entry spectrum i * entry icrp_factors i)%float)
        * (double_of_int 3600 * 1e-9))%float.
Proof.
  intros Hs Hf. unfold calculateDose.
  rewrite (for_sigma num_bins _
             (fun i => (entry spectrum i * entry icrp_factors i)%float)).
  - reflexivity.
  - intros k acc Hk. rewrite !at_entry by lia. reflexivity.
Qed.

(** The dose of a spectrum and weighting factors whose entries are finite
    and at least zero is at least zero and not a NaN. An infinite entry
    is excluded: against a zero factor its product is a NaN. *)
Theorem dose_at_least_zero (num_bins : Z) (spectrum icrp_factors : vec) :
  num_bins <= size spectrum -> num_bins <= size icrp_factors ->
  (forall i, 0 <= i < num_bins -> finite_at_least_zero (entry spectrum i) = true) ->
  (forall i, 0 <= i < num_bins -> finite_at_least_zero (entry icrp_factors i) = true) ->
  exists dose,
    calculateDose num_bins spectrum icrp_factors = Ok dose /\
    (0 <=? dose)%float = true /\
    is_nan dose = false.
Proof.
  intros Hs Hf Hspectrum Hfactors.
  eexists. split; [apply calculateDose_ok; assumption|].
  assert (H : plus_signed
                (Prim2SF
                   (sigma num_bins
                      (fun i => (entry spectrum i * entry icrp_factors i)%float)
                    * (double_of_int 3600 * 1e-9))%float)).
  { apply DoubleArith.mul_plus_signed; [|reflexivity].
    apply sigma_plus_signed. intros k Hk.
    apply DoubleArith.mul_at_least_zero; [apply Hspectrum | apply Hfactors]; exact Hk. }
  split; [apply DoubleArith.plus_signed_leb, H | apply plus_signed_not_nan, H].
Qed.

Lemma dose_at_least_zero_witness :
  exists dose,
    calculateDose 2 [1; 0]%float [2; 3]%float = Ok dose /\
    (0 <=? dose)%float = true /\
    is_nan dose = false.
Proof.
  apply dose_at_least_zero; try (unfold size; cbn; lia);
    intros i Hi; assert (Hcases : i = 0 \/ i = 1) by lia;
    destruct Hcases as [-> | ->]; reflexivity.
Defined.

(** An infinite flux against a zero weighting factor makes the dose a NaN. *)
Example dose_of_infinite_flux_against_zero_factor :
  exists dose,
    calculateDose 1 [infinity] [0%float] = Ok dose /\ is_nan dose = true.
Proof. eexists. split; reflexivity. Qed.

(** ** calculateSourceStrength *)

Lemma calculateSourceStrength_ok (num_bins : Z) (spectrum : vec) (duration : Z)
    (dose_mu : float) :
  num_bins <= size spectrum ->
  calculateSourceStrength num_bins spectrum duration dose_mu
  = Ok (sigma num_bins (entry spectrum) * double_of_int duration / dose_mu * 100
        / fluence_factor)%float.
Proof.
  intros Hs. unfold calculateSourceStrength.
  rewrite calculateTotalFlux_ok by assumption. reflexivity.
Qed.

(** The source strength of a spectrum whose entries are at least zero, for
    a positive duration and a finite positive dose, is at least zero and
    not a NaN: the sum of the three factors of the empirical formula is a
    finite positive constant. *)
Theorem source_strength_at_least_zero (num_bins : Z) (spectrum : vec) (duration : Z)
    (dose_mu : float) :
  num_bins <= size spectrum ->
  (forall i, 0 <= i < num_bins -> (0 <=? entry spectrum i)%float = true) ->
  0 < duration < 2 ^ 31 ->
  finite_above_zero dose_mu = true ->
  finite_above_zero fluence_factor = true /\
  exists source_strength,
    calculateSourceStrength num_bins spectrum duration dose_mu = Ok source_strength /\
    (0 <=? source_strength)%float = true /\
    is_nan source_strength = false.
Proof.
  intros Hs Hspectrum Hduration Hdose. split; [reflexivity|].
  eexists. split; [apply calculateSourceStrength_ok; assumption|].
  assert (H : plus_signed
                (Prim2SF
                   (sigma num_bins (entry spectrum) * double_of_int duration / dose_mu
                    * 100 / fluence_factor)%float)).
  { apply DoubleArith.div_plus_signed; [|reflexivity].
    apply DoubleArith.mul_plus_signed; [|reflexivity].
    apply DoubleArith.div_plus_signed; [|exact Hdose].
    rewrite mul_spec. apply DoubleArith.SFmul_plus_signed.
    - apply sigma_plus_signed, Hspectrum.
    - destruct (DoubleArith.double_of_int_spec duration) as [[H0 _] | [_ [m [e E]]]];
        [lia | lia |].
      replace (duration <? 0) with false in E by (symmetry; apply Z.ltb_ge; lia).
      exists m, e. exact E. }
  split; [apply DoubleArith.plus_signed_leb, H | apply plus_signed_not_nan, H].
Qed.

Lemma source_strength_at_least_zero_witness :
  exists source_strength,
    calculateSourceStrength 2 [1; 0]%float 60 200 = Ok source_strength /\
    (0 <=? source_strength)%float = true /\
    is_nan source_strength = false.
Proof.
  apply (source_strength_at_least_zero 2 [1; 0]%float 60 200).
  - unfold size. cbn. lia.
  - intros i Hi. assert (Hcases : i = 0 \/ i = 1) by lia.
    destruct Hcases as [-> | ->]; reflexivity.
  - lia.
  - reflexivity.
Defined.
